(** * A rotating log file writer: pkg/logging FileWriter

    Shallow embedding of the [FileWriter] of package [logging] (file
    writer with size-based rotation, timestamped archives, background gzip
    compression and an age-based sweep at construction), together with the
    properties that its description states about it.

    Go strings are byte strings and are modelled by [string]; [int64] values
    are modelled by [Z]; a Go [error] is [option error] ([None] is [nil]). *)

From Stdlib Require Import ZArith Lia Ascii String.
From stdpp Require Import base option list gmap strings sorting.

Local Open Scope string_scope.
Local Open Scope Z_scope.

(** ** Byte-string helpers (package strings) *)

Module GoString.

(** [strings.HasSuffix(s, suffix)]. *)
Definition HasSuffix (s suffix : string) : bool :=
  let n := String.length s in
  let k := String.length suffix in
  (k <=? n)%nat && String.eqb (String.substring (n - k) k s) suffix.

(** The components of [s] between the separators ['/']; never empty. *)
Fixpoint split_slash (s : string) : list string :=
  match s with
  | EmptyString => [EmptyString]
  | String c r =>
      if Ascii.eqb c "/" then EmptyString :: split_slash r
      else match split_slash r with
           | h :: t => String c h :: t
           | [] => [String c EmptyString]
           end
  end.

(** [strings.Join(elems, "/")]. *)
Fixpoint join_slash (l : list string) : string :=
  match l with
  | [] => EmptyString
  | [x] => x
  | x :: r => x +:+ "/" +:+ join_slash r
  end.

(** Index-free form of "the part of [s] from its last ['.'] on":
    [Some e] when [s] holds a dot, [e] starting at the last one. *)
Fixpoint last_dot (s : string) : option string :=
  match s with
  | EmptyString => None
  | String c r =>
      match last_dot r with
      | Some e => Some e
      | None => if Ascii.eqb c "." then Some s else None
      end
  end.

(** [s[:len(s)-k]]. *)
Definition drop_right (k : nat) (s : string) : string :=
  String.substring 0 (String.length s - k) s.

End GoString.

(** ** Slash-separated paths (packages path and path/filepath, Unix)

    The library works on bytes with a write index; the model works on the
    components between separators, which gives the same strings. *)

Module Path.
Import GoString.

Definition rooted (p : string) : bool :=
  match p with
  | String c _ => Ascii.eqb c "/"
  | EmptyString => false
  end.

(** One turn of the element loop of [Clean]: [out] is the output so far,
    last element first.  Empty and ["."] elements are skipped; [".."]
    removes the last element when there is one to remove, is kept on a
    relative path and is dropped at the root. *)
Definition clean_step (root : bool) (out : list string) (e : string) : list string :=
  if String.eqb e "" || String.eqb e "." then out
  else if String.eqb e ".." then
    match out with
    | top :: out' => if String.eqb top ".." then e :: out else out'
    | [] => if root then [] else [e]
    end
  else e :: out.

Definition clean_elems (root : bool) (elems : list string) : list string :=
  rev (fold_left (clean_step root) elems []).

(** A path from its elements. *)
Definition render (root : bool) (elems : list string) : string :=
  (if root then "/" else "") +:+ join_slash elems.

Definition Clean (p : string) : string :=
  if String.eqb p "" then "."
  else
    let s := render (rooted p) (clean_elems (rooted p) (split_slash p)) in
    if String.eqb s "" then "." else s.

(** [Join]: leading empty elements are ignored, the rest is joined with
    separators and cleaned; all elements empty gives the empty string. *)
Fixpoint Join (elem : list string) : string :=
  match elem with
  | [] => ""
  | e :: r => if String.eqb e "" then Join r else Clean (join_slash elem)
  end.

Definition nonempty (s : string) : bool := negb (String.eqb s "").

(** [Base]: the last element, trailing separators removed first. *)
Definition Base (p : string) : string :=
  if String.eqb p "" then "."
  else match last (filter (fun e => nonempty e = true) (split_slash p)) with
       | Some e => e
       | None => "/"
       end.

(** [Ext]: the suffix that starts at the last dot of the last element. *)
Definition Ext (p : string) : string :=
  match last (split_slash p) with
  | Some e => default "" (last_dot e)
  | None => ""
  end.

(** [Dir]: all but the last element, cleaned. *)
Definition Dir (p : string) : string :=
  Clean (drop_right (String.length (default "" (last (split_slash p)))) p).

End Path.

(** ** Wall-clock timestamps (package time)

    [time.Now()] is modelled by its broken-down local time, which is all
    that [Format] reads. *)

Module Time.

Record Time := mkTime {
  year : Z; month : Z; day : Z;
  hour : Z; minute : Z; second : Z;
  nanosecond : Z
}.

Definition digit (n : Z) : ascii := ascii_of_nat (48 + Z.to_nat (n mod 10)).

(** The [width] lowest decimal digits of [n], most significant first. *)
Fixpoint fixed (width : nat) (n : Z) : string :=
  match width with
  | O => ""
  | S k => fixed k (n / 10) +:+ String (digit n) ""
  end.

(** The decimal digits of a non-negative [n], without padding. *)
Fixpoint decimal (fuel : nat) (n : Z) : string :=
  match fuel with
  | O => ""
  | S k => (if n <? 10 then "" else decimal k (n / 10)) +:+ String (digit n) ""
  end.

(** [appendInt(b, x, width)]: at least [width] digits, zero padded, with
    a sign for a negative [x]. *)
Definition appendInt (x : Z) (width : nat) : string :=
  let u := Z.abs x in
  (if x <? 0 then "-" else "") +:+
  (if u <? 10 ^ Z.of_nat width then fixed width u else decimal 20 u).

(** [t.Format("2006-01-02T15-04-05.00000")]: the year on four digits,
    month, day, hour (24h), minute and second on two, and five digits
    of the fraction of the second, truncated. *)
Definition Format (t : Time) : string :=
  appendInt (year t) 4 +:+ "-" +:+ appendInt (month t) 2 +:+ "-" +:+
  appendInt (day t) 2 +:+ "T" +:+ appendInt (hour t) 2 +:+ "-" +:+
  appendInt (minute t) 2 +:+ "-" +:+ appendInt (second t) 2 +:+
  "." +:+ fixed 5 (nanosecond t / 10000).




End Time.

(** ** The operating system as the writer sees it (package os)

    A flat file system of regular files under their cleaned full path, a
    clock, and the failures of the environment: [faults] tells which
    system calls fail, and with which error. *)

Module OS.

Inductive error :=
  | ErrClosed      (* os.ErrClosed: file already closed *)
  | ErrInvalid     (* os.ErrInvalid: nil *os.File *)
  | ErrNotExist    (* os.ErrNotExist *)
  | ErrPermission
  | ErrNoSpace
  | ErrIO.

Record File := mkFile { data : string; modTime : Z }.

(** What [fs.FileInfo] gives: [Name()], [Size()], [ModTime()]. *)
Record FileInfo := mkInfo { Name : string; Size : Z; ModTime : Z }.

Inductive syscall :=
  | SysMkdirAll (dir : string)
  | SysReadDir (dir : string)
  | SysLstat (name : string)
  | SysStat (name : string)
  | SysOpen (name : string)
  | SysOpenFile (name : string)
  | SysWrite (name : string)
  | SysClose (name : string)
  | SysCopy (src dst : string)
  | SysRename (oldpath newpath : string)
  | SysRemove (name : string).

Record World := mkWorld {
  files : gmap string File;
  nowNano : Z;                       (* the instant, in nanoseconds *)
  nowWall : Time.Time;               (* the same instant on the wall clock *)
  faults : syscall -> option error;
  shortWrite : nat;                  (* bytes a failing write still appends *)
  gzip : string -> string;           (* compress/gzip: the stream of an input *)
  rotations : nat                    (* ghost: calls of rotate so far *)
}.

Definition set_files (fs : gmap string File) (σ : World) : World :=
  mkWorld fs (nowNano σ) (nowWall σ) (faults σ) (shortWrite σ) (gzip σ)
          (rotations σ).

Definition count_rotation (σ : World) : World :=
  mkWorld (files σ) (nowNano σ) (nowWall σ) (faults σ) (shortWrite σ)
          (gzip σ) (S (rotations σ)).

(** An [*os.File]: the name it was opened with and whether [Close] was
    called on it.  The [nil] pointer is [None : option OsFile]. *)
Record OsFile := mkOsFile { fname : string; fclosed : bool }.

(** Outcome of a computation: a value and the new world, a Go [panic], or
    the end of the process ([lg.Fatalw]). *)
Inductive outcome (A : Type) :=
  | Ok (a : A) (σ : World)
  | Panic (msg : string) (σ : World)
  | Fatal (msg : string) (σ : World).
Arguments Ok {A} a σ.
Arguments Panic {A} msg σ.
Arguments Fatal {A} msg σ.

Definition M (A : Type) : Type := World -> outcome A.

Definition ret {A} (a : A) : M A := fun σ => Ok a σ.

Definition bind {A B} (m : M A) (k : A -> M B) : M B :=
  fun σ => match m σ with
           | Ok a σ' => k a σ'
           | Panic msg σ' => Panic msg σ'
           | Fatal msg σ' => Fatal msg σ'
           end.

Definition panic {A} (msg : string) : M A := fun σ => Panic msg σ.
Definition fatal {A} (msg : string) : M A := fun σ => Fatal msg σ.
Definition get : M World := fun σ => Ok σ σ.
Definition modify (f : World -> World) : M unit := fun σ => Ok tt (f σ).

Global Instance M_ret : MRet M := @ret.
Global Instance M_bind : MBind M := fun A B k m => bind m k.

Definition len (b : string) : Z := Z.of_nat (String.length b).

(** [os.MkdirAll(dir, perm)]: directories are implicit in the flat file
    system, the call can only fail. *)
Definition MkdirAll (dir : string) : M (option error) :=
  σ ← get; ret (faults σ (SysMkdirAll dir)).

(** [os.Stat(name)]. *)
Definition Stat (name : string) : M (option FileInfo * option error) :=
  σ ← get;
  match faults σ (SysStat name) with
  | Some e => ret (None, Some e)
  | None =>
      match files σ !! name with
      | Some f => ret (Some (mkInfo (Path.Base name) (len (data f)) (modTime f)), None)
      | None => ret (None, Some ErrNotExist)
      end
  end.

(** [os.OpenFile(name, O_APPEND|O_WRONLY|O_CREATE, perm)], and with
    [trunc] the flags [O_CREATE|O_TRUNC|O_WRONLY]. *)
Definition OpenFile (name : string) (trunc : bool) : M (option OsFile * option error) :=
  σ ← get;
  match faults σ (SysOpenFile name) with
  | Some e => ret (None, Some e)
  | None =>
      match files σ !! name with
      | Some f =>
          (if trunc
           then modify (set_files (<[name := mkFile "" (nowNano σ)]> (files σ)))
           else ret tt);;
          ret (Some (mkOsFile name false), None)
      | None =>
          modify (set_files (<[name := mkFile "" (nowNano σ)]> (files σ)));;
          ret (Some (mkOsFile name false), None)
      end
  end.

(** [os.Open(name)]: for reading. *)
Definition Open (name : string) : M (option OsFile * option error) :=
  σ ← get;
  match faults σ (SysOpen name) with
  | Some e => ret (None, Some e)
  | None =>
      match files σ !! name with
      | Some _ => ret (Some (mkOsFile name false), None)
      | None => ret (None, Some ErrNotExist)
      end
  end.

Definition append_data (b : string) (t : Z) (f : File) : File :=
  mkFile (data f +:+ b) t.

(** [f.Write(b)] on a file opened for append: on a nil or closed file
    nothing is written; a failing write appends the first [shortWrite]
    bytes at most and reports how many. *)
Definition File_Write (f : option OsFile) (b : string) : M (Z * option error) :=
  match f with
  | None => ret (0, Some ErrInvalid)
  | Some h =>
      if fclosed h then ret (0, Some ErrClosed)
      else
        σ ← get;
        match faults σ (SysWrite (fname h)) with
        | Some e =>
            let part := String.substring 0 (shortWrite σ) b in
            modify (set_files (alter (append_data part (nowNano σ)) (fname h) (files σ)));;
            ret (len part, Some e)
        | None =>
            modify (set_files (alter (append_data b (nowNano σ)) (fname h) (files σ)));;
            ret (len b, None)
        end
  end.

(** [f.Close()]: an error on a nil file and on a file already closed;
    the file is closed afterwards also when the system call fails. *)
Definition File_Close (f : option OsFile) : M (option OsFile * option error) :=
  match f with
  | None => ret (None, Some ErrInvalid)
  | Some h =>
      if fclosed h then ret (f, Some ErrClosed)
      else
        σ ← get;
        ret (Some (mkOsFile (fname h) true), faults σ (SysClose (fname h)))
  end.

(** [os.Rename(oldpath, newpath)]: replaces [newpath] when it exists. *)
Definition Rename (oldpath newpath : string) : M (option error) :=
  σ ← get;
  match faults σ (SysRename oldpath newpath) with
  | Some e => ret (Some e)
  | None =>
      match files σ !! oldpath with
      | Some f =>
          modify (set_files (<[newpath := f]> (delete oldpath (files σ))));;
          ret None
      | None => ret (Some ErrNotExist)
      end
  end.

(** [os.Remove(name)]. *)
Definition Remove (name : string) : M (option error) :=
  σ ← get;
  match faults σ (SysRemove name) with
  | Some e => ret (Some e)
  | None =>
      match files σ !! name with
      | Some _ => modify (set_files (delete name (files σ)));; ret None
      | None => ret (Some ErrNotExist)
      end
  end.

(** [io.Copy(zipper, in)] with [zipper] a gzip writer on the file [dst]
    and [in] the file [src]: the compressed stream of [src] is written to
    [dst] and the number of bytes read is returned.  The trailer that the
    deferred [zipper.Close()] writes goes to the same open file and is
    counted here. *)
Definition Copy (dst src : string) : M (Z * option error) :=
  σ ← get;
  match faults σ (SysCopy src dst) with
  | Some e => ret (0, Some e)
  | None =>
      match files σ !! src with
      | Some f =>
          modify (set_files
            (alter (fun _ => mkFile (gzip σ (data f)) (nowNano σ)) dst (files σ)));;
          ret (len (data f), None)
      | None => ret (0, None)
      end
  end.

Definition name_le (a b : string * File) : Prop := String.leb a.1 b.1 = true.

Global Instance name_le_dec a b : Decision (name_le a b).
Proof. unfold name_le. apply _. Defined.

(** The entries of directory [dir], by name and sorted by it as
    [os.ReadDir] returns them. *)
Definition entries (dir : string) (fs : gmap string File) : list (string * File) :=
  merge_sort name_le
    (omap (fun pf : string * File =>
             if String.eqb (Path.Dir pf.1) (Path.Clean dir)
             then Some (Path.Base pf.1, pf.2) else None)
          (map_to_list fs)).

(** [os.ReadDir(dir)]. *)
Definition ReadDir (dir : string) : M (list (string * File) * option error) :=
  σ ← get;
  match faults σ (SysReadDir dir) with
  | Some e => ret ([], Some e)
  | None => ret (entries dir (files σ), None)
  end.

(** [dirEnt.Info()] for an entry of [dir]. *)
Definition Info (dir : string) (ent : string * File) : M (option FileInfo * option error) :=
  σ ← get;
  match faults σ (SysLstat (Path.Join [dir; ent.1])) with
  | Some e => ret (None, Some e)
  | None => ret (Some (mkInfo ent.1 (len (data ent.2)) (modTime ent.2)), None)
  end.

Definition MaxInt64 : Z := 2 ^ 63 - 1.
Definition MinInt64 : Z := - 2 ^ 63.

(** [int64] arithmetic wraps around. *)
Definition wrap64 (x : Z) : Z := (x + 2 ^ 63) mod 2 ^ 64 - 2 ^ 63.

(** [time.Since(t)]: a [Duration] in nanoseconds, saturated. *)
Definition Since (t : Z) : M Z :=
  σ ← get; ret (Z.max MinInt64 (Z.min MaxInt64 (nowNano σ - t))).

(** [time.Now()]. *)
Definition Now : M Time.Time := σ ← get; ret (nowWall σ).

End OS.

(** ** The file writer (pkg/logging) *)

Module FW.
Import GoString OS.

(** [FileWriterConfig]; [MaxTimeTimeToKeep] is a [time.Duration], in
    nanoseconds. *)
Record FileWriterConfig := mkConfig {
  LogDirName : string;
  LogFileName : string;
  Compress : bool;
  MaxTimeTimeToKeep : Z;
  MaxLogFileSizeBytes : Z
}.

(** [FileWriter].  [closed] is an [atomic.Value], [None] until the first
    [Store].  The wait group [compressorWG] is modelled by the [compress]
    goroutines that were started and have not finished, oldest first: its
    counter is the length of the list.  The mutex [mu] serialises the calls
    and has no counterpart: every call runs to its end. *)
Record FileWriter := mkFileWriter {
  closed : option bool;
  config : FileWriterConfig;
  logFile : option OsFile;
  logFileNameFullPath : string;
  byteCounter : Z;
  compressorWG : list string
}.

Definition set_closed (v : option bool) (w : FileWriter) : FileWriter :=
  mkFileWriter v (config w) (logFile w) (logFileNameFullPath w)
               (byteCounter w) (compressorWG w).
Definition set_logFile (f : option OsFile) (w : FileWriter) : FileWriter :=
  mkFileWriter (closed w) (config w) f (logFileNameFullPath w)
               (byteCounter w) (compressorWG w).
Definition set_byteCounter (n : Z) (w : FileWriter) : FileWriter :=
  mkFileWriter (closed w) (config w) (logFile w) (logFileNameFullPath w)
               n (compressorWG w).
Definition set_compressorWG (l : list string) (w : FileWriter) : FileWriter :=
  mkFileWriter (closed w) (config w) (logFile w) (logFileNameFullPath w)
               (byteCounter w) l.

Definition defaultLogFileSizeBytes : Z := 1000000.
Definition defaultLogDirName : string := "./log".
Definition defaultLogFileName : string := "log.log".
Definition compressedExtension : string := "gz".
Definition processingExtenstion : string := "processing".

(** [w.compressorWG.Add(1); go w.compress(fn)]. *)
Definition go_compress (fn : string) (w : FileWriter) : FileWriter :=
  set_compressorWG (compressorWG w ++ [fn]) w.

Fixpoint remove_first (fn : string) (l : list string) : list string :=
  match l with
  | [] => []
  | x :: r => if String.eqb x fn then r else x :: remove_first fn r
  end.

(** [w.compressorWG.Done()] of the goroutine [compress(fn)]. *)
Definition Done (fn : string) (w : FileWriter) : FileWriter :=
  set_compressorWG (remove_first fn (compressorWG w)) w.

(** [archiveName]: the time stamp goes between the file name without its
    extension and the extension, in the directory of [current]. *)
Definition archiveName (current : string) : M string :=
  let dir := Path.Dir current in
  let filename := Path.Base current in
  let ext := Path.Ext current in
  let prefix := drop_right (String.length ext) filename in
  now ← Now;
  let timestamp := Time.Format now in
  ret (Path.Join [dir; prefix +:+ "-" +:+ timestamp +:+ ext]).

(** [compress]: the goroutine body.  The deferred [Done] is the last
    thing on every path.  Log output is not modelled. *)
Definition compress (w : FileWriter) (fn : string) : M FileWriter :=
  '(_, err) ← Open fn;
  match err with
  | Some _ => ret (Done fn w)
  | None =>
      let compressedFilename := fn +:+ "." +:+ compressedExtension in
      let tempFilename := compressedFilename +:+ "." +:+ processingExtenstion in
      '(_, err) ← OpenFile tempFilename true;
      match err with
      | Some _ => ret (Done fn w)
      | None =>
          '(_, err) ← Copy tempFilename fn;
          match err with
          | Some _ => Remove tempFilename;; ret (Done fn w)
          | None =>
              Rename tempFilename compressedFilename;;
              Remove fn;;
              ret (Done fn w)
          end
      end
  end.

(** [archive]: the argument [fn] is not used by the source either. *)
Definition archive (w : FileWriter) (fn : string) : M (FileWriter * option error) :=
  newName ← archiveName (logFileNameFullPath w);
  err ← Rename (logFileNameFullPath w) newName;
  match err with
  | Some e => ret (w, Some e)
  | None =>
      if Compress (config w) then ret (go_compress newName w, None)
      else ret (w, None)
  end.

(** [rotate]. *)
Definition rotate (w : FileWriter) : M (FileWriter * option error) :=
  modify count_rotation;;
  match logFile w with
  | None => panic "logging inconsistency: logFile was nil"
  | Some _ =>
      '(f, err) ← File_Close (logFile w);
      let w := set_logFile f w in
      match err with
      | Some e => ret (w, Some e)
      | None =>
          err ← MkdirAll (LogDirName (config w));
          match err with
          | Some e => ret (w, Some e)
          | None =>
              '(w, _) ← archive w (logFileNameFullPath w);
              '(f, err) ← OpenFile (logFileNameFullPath w) false;
              let w := set_logFile f w in
              match err with
              | Some e => ret (w, Some e)
              | None => ret (set_byteCounter 0 w, None)
              end
          end
      end
  end.

(** [Write]. *)
Definition Write (w : FileWriter) (msg : string) : M (FileWriter * (Z * option error)) :=
  match closed w with
  | Some _ => ret (w, (0, Some ErrClosed))
  | None =>
      '(n, err) ← File_Write (logFile w) msg;
      let w := set_byteCounter (wrap64 (byteCounter w + n)) w in
      if byteCounter w >? MaxLogFileSizeBytes (config w)
      then '(w, _) ← rotate w; ret (w, (n, err))
      else ret (w, (n, err))
  end.

(** The loop of [cleanup] over the directory entries. *)
Fixpoint cleanup_loop (w : FileWriter) (dirEnts : list (string * File)) : M FileWriter :=
  match dirEnts with
  | [] => ret w
  | dirEnt :: rest =>
      '(info, err) ← Info (LogDirName (config w)) dirEnt;
      match info, err with
      | Some info, None =>
          let fullPath := Path.Join [LogDirName (config w); Name info] in
          expired ← (if MaxTimeTimeToKeep (config w) >? 0
                     then age ← Since (ModTime info);
                          ret (age >? MaxTimeTimeToKeep (config w))
                     else ret false);
          if (expired : bool) then
            Remove fullPath;; cleanup_loop w rest
          else if HasSuffix (Name info) "log"
                  && negb (String.eqb (Name info) (LogFileName (config w)))
          then cleanup_loop (go_compress fullPath w) rest
          else cleanup_loop w rest
      | _, _ => cleanup_loop w rest
      end
  end.

(** [cleanup]. *)
Definition cleanup (w : FileWriter) : M (FileWriter * option error) :=
  '(dirEnts, err) ← ReadDir (LogDirName (config w));
  match err with
  | Some e => ret (w, Some e)
  | None => w ← cleanup_loop w dirEnts; ret (w, None)
  end.

(** [initialize]. *)
Definition initialize (w : FileWriter) : M (FileWriter * option error) :=
  err ← MkdirAll (LogDirName (config w));
  match err with
  | Some e => ret (w, Some e)
  | None =>
      '(w, err) ← cleanup w;
      match err with
      | Some e => ret (w, Some e)
      | None =>
          '(info, err) ← Stat (logFileNameFullPath w);
          '(w, err) ← match info, err with
                      | Some info, None =>
                          if Size info >=? MaxLogFileSizeBytes (config w)
                          then archive w (logFileNameFullPath w)
                          else ret (set_byteCounter (Size info) w, None)
                      | _, _ => ret (w, None)
                      end;
          match err with
          | Some e => ret (w, Some e)
          | None =>
              '(f, err) ← OpenFile (logFileNameFullPath w) false;
              let w := set_logFile f w in
              match err with
              | Some e => ret (w, Some e)
              | None => ret (w, None)
              end
          end
      end
  end.

(** The configuration with the defaults of [NewFileWriter] filled in. *)
Definition withDefaults (c : FileWriterConfig) : FileWriterConfig :=
  let c := if MaxLogFileSizeBytes c =? 0
           then mkConfig (LogDirName c) (LogFileName c) (Compress c)
                         (MaxTimeTimeToKeep c) defaultLogFileSizeBytes
           else c in
  let c := if String.eqb (LogDirName c) ""
           then mkConfig defaultLogDirName (LogFileName c) (Compress c)
                         (MaxTimeTimeToKeep c) (MaxLogFileSizeBytes c)
           else c in
  if String.eqb (LogFileName c) ""
  then mkConfig (LogDirName c) defaultLogFileName (Compress c)
                (MaxTimeTimeToKeep c) (MaxLogFileSizeBytes c)
  else c.

(** [NewFileWriter]: a failure of [initialize] ends the process. *)
Definition NewFileWriter (c : FileWriterConfig) : M FileWriter :=
  let c := withDefaults c in
  let fileWriter :=
    mkFileWriter None c None (Path.Join [LogDirName c; LogFileName c]) 0 [] in
  '(fileWriter, err) ← initialize fileWriter;
  match err with
  | Some _ => fatal "error initializing filewriter"
  | None => ret fileWriter
  end.

(** [w.compressorWG.Wait()]: returns when every goroutine counted by the
    wait group has run to its end. *)
Fixpoint run (tasks : list string) (w : FileWriter) : M FileWriter :=
  match tasks with
  | [] => ret w
  | fn :: rest => w ← compress w fn; run rest w
  end.

Definition Wait (w : FileWriter) : M FileWriter := run (compressorWG w) w.

(** [Close]. *)
Definition Close (w : FileWriter) : M (FileWriter * option error) :=
  let w := set_closed (Some true) w in
  w ← Wait w;
  '(f, err) ← File_Close (logFile w);
  ret (set_logFile f w, err).

End FW.

(** * What the properties speak of

    Observations on worlds and writers, sequences of calls, the shape of
    cleaned paths and of archive names, and sample inputs. *)

Module Obs.
Import GoString OS FW.

(** Only the files differ between two worlds. *)
Definition same_env (σ σ' : World) : Prop :=
  nowNano σ' = nowNano σ ∧ nowWall σ' = nowWall σ ∧ faults σ' = faults σ ∧
  shortWrite σ' = shortWrite σ ∧ gzip σ' = gzip σ ∧ rotations σ' = rotations σ.

(** Configuration and active path are fixed at construction. *)
Definition same_cfg (w w' : FileWriter) : Prop :=
  config w' = config w ∧ logFileNameFullPath w' = logFileNameFullPath w.

(** The archive name is a function of the path and of the wall clock. *)
Definition archiveNameAt (current : string) (t : Time.Time) : string :=
  Path.Join [Path.Dir current;
             drop_right (String.length (Path.Ext current)) (Path.Base current)
             +:+ "-" +:+ Time.Format t +:+ Path.Ext current].

(** The age rule of the sweep, for an entry whose [Info] is available. *)
Definition expired (c : FileWriterConfig) (σ : World) (ent : string * File) : bool :=
  (MaxTimeTimeToKeep c >? 0) &&
  (Z.max MinInt64 (Z.min MaxInt64 (nowNano σ - modTime ent.2)) >? MaxTimeTimeToKeep c).

(** The entries for which the sweep starts a compression. *)
Definition sweep_compresses (c : FileWriterConfig) (σ : World) (ent : string * File) : bool :=
  match faults σ (SysLstat (Path.Join [LogDirName c; ent.1])) with
  | Some _ => false
  | None =>
      negb (expired c σ ent) && HasSuffix ent.1 "log" &&
      negb (String.eqb ent.1 (LogFileName c))
  end.

Definition sweep_paths (c : FileWriterConfig) (σ : World) (ents : list (string * File)) : list string :=
  map (fun ent : string * File => Path.Join [LogDirName c; ent.1])
      (List.filter (sweep_compresses c σ) ents).

(** The world an outcome ends in. *)
Definition world_of {A} (o : outcome A) : World :=
  match o with
  | Ok _ σ => σ
  | Panic _ σ => σ
  | Fatal _ σ => σ
  end.

(** A sequence of [Write] calls on the same writer; the results of the
    calls in order. *)
Fixpoint writes (w : FileWriter) (msgs : list string)
  : M (FileWriter * list (Z * option error)) :=
  match msgs with
  | [] => mret (w, [])
  | msg :: rest =>
      '(w, r) ← Write w msg;
      '(w, rs) ← writes w rest;
      mret (w, r :: rs)
  end.

(** The cumulative size of a sequence of payloads. *)
Definition total (msgs : list string) : Z :=
  fold_right (fun msg acc => len msg + acc) 0 msgs.

(** The bytes the calls reported. *)
Definition written (rs : list (Z * option error)) : Z :=
  fold_right (fun r acc => r.1 + acc) 0 rs.

Module Sample.

Definition clock : Time.Time := Time.mkTime 2024 3 9 7 5 59 123456789.

Definition world (fs : gmap string File) (flt : syscall → option error) : World :=
  mkWorld fs 1000 clock flt 0 (fun b => "gz:" +:+ b) 0.

Definition no_fault : syscall → option error := fun _ => None.

Definition mkdir_fails : syscall → option error :=
  fun s => match s with SysMkdirAll _ => Some ErrPermission | _ => None end.

Definition rename_fails : syscall → option error :=
  fun s => match s with SysRename _ _ => Some ErrPermission | _ => None end.

Definition cfg (compress : bool) : FileWriterConfig :=
  mkConfig "logs" "app.log" compress 0 10.

(** A writer as [NewFileWriter (cfg compress)] leaves it on an empty
    directory. *)
Definition writer (compress : bool) : FileWriter :=
  mkFileWriter None (cfg compress) (Some (mkOsFile "logs/app.log" false))
               "logs/app.log" 0 [].

Definition active : gmap string File := {[ "logs/app.log" := mkFile "" 0 ]}.

Definition archived : string := "logs/app-2024-03-09T07-05-59.12345.log".

End Sample.

(** No byte of the string is the separator. *)
Fixpoint no_slash (s : string) : bool :=
  match s with
  | EmptyString => true
  | String c r => negb (Ascii.eqb c "/") && no_slash r
  end.

(** An ordinary path element: not empty, without separator, and neither
    ["."] nor [".."]. *)
Definition plain (e : string) : bool :=
  no_slash e && negb (String.eqb e "") && negb (String.eqb e ".")
  && negb (String.eqb e "..").

(** The outputs of the element loop of [Clean], last element first:
    ordinary elements, after [".."] elements on a relative path only. *)
Inductive good (root : bool) : list string → Prop :=
  | good_nil : good root []
  | good_dots st :
      root = false → Forall (fun e => e = "..") st → good root (".." :: st)
  | good_plain e st : plain e = true → good root st → good root (e :: st).

(** The cleaned elements of a directory name. *)
Definition dir_elems (d : string) : list string :=
  Path.clean_elems (Path.rooted d) (split_slash d).

(** The extension of a file name, and the name without it. *)
Definition ext_of (x : string) : string := default "" (last_dot x).
Definition stem_of (x : string) : string := drop_right (String.length (ext_of x)) x.

(** The name under which the file [x] is archived at time [t]. *)
Definition stamped (x : string) (t : Time.Time) : string :=
  stem_of x +:+ "-" +:+ Time.Format t +:+ ext_of x.


Definition compressedName (fn : string) : string :=
  fn +:+ "." +:+ compressedExtension.
Definition tempName (fn : string) : string :=
  compressedName fn +:+ "." +:+ processingExtenstion.

End Obs.

(** * The rest of the package: log level and configuration

    [SetLevel], [GetLevel], [SetLevelTemporarily] and [GetLogDir] of
    api.go, [getLogFileWriter] of logging.go. *)

(** ** Decimal integers (package strconv) *)

Module Strconv.

Definition digit_val (c : ascii) : option Z :=
  let n := Z.of_nat (nat_of_ascii c) in
  if (48 <=? n) && (n <=? 57) then Some (n - 48) else None.

(** The number that the digits of [s] write after those of [acc]; [None]
    when a byte is not a digit. *)
Fixpoint parse_digits (s : string) (acc : Z) : option Z :=
  match s with
  | EmptyString => Some acc
  | String c r =>
      match digit_val c with
      | Some d => parse_digits r (acc * 10 + d)
      | None => None
      end
  end.

(** [strconv.ParseInt(s, 10, bitSize)]: [Some n] when the error is nil.
    An optional sign, then at least one digit and nothing else; the value
    must fit the signed [bitSize]-bit range.  The callers read the value
    only when the error is nil. *)
Definition ParseInt (s : string) (bitSize : Z) : option Z :=
  match s with
  | EmptyString => None
  | String c r =>
      let neg := Ascii.eqb c "-" in
      let body := if Ascii.eqb c "+" || Ascii.eqb c "-" then r else s in
      match body with
      | EmptyString => None
      | _ =>
          match parse_digits body 0 with
          | None => None
          | Some un =>
              let cutoff := 2 ^ (bitSize - 1) in
              if negb neg && (cutoff <=? un) then None
              else if neg && (cutoff <? un) then None
              else Some (if neg then - un else un)
          end
      end
  end.

End Strconv.

(** ** Log level and environment *)

Module Logging.
Import OS FW.

Definition LogDirEnvVar : string := "TEST_LOG_DIR".
Definition LogFileSizeEnvVar : string := "TEST_LOG_FILE_SIZE_MB".
Definition LogFileMaxAgeEnvVar : string := "TEST_LOG_FILE_MAX_AGE_DAYS".
Definition logFileName : string := "test.log".

(** [time.Minute] and [time.Hour], in nanoseconds. *)
Definition Minute : Z := 60 * 1000000000.
Definition Hour : Z := 60 * Minute.

Definition maxDurationForTemporaryLogLevelChange : Z := 60 * Minute.
Definition defaultTemporaryLogLevelChangeDuration : Z := 5 * Minute.

(** [zapcore.InfoLevel]. *)
Definition defaultLogLevel : Z := 0.

(** The level [atomicLogLevel], and the goroutines of
    [SetLevelTemporarily] that wait on [time.After]: for each the time it
    still has to wait, in nanoseconds. *)
Record LevelState := mkLevels { atomicLogLevel : Z; sleepers : list Z }.

(** [SetLevel]. *)
Definition SetLevel (level : Z) (s : LevelState) : LevelState :=
  mkLevels level (sleepers s).

(** [GetLevel]. *)
Definition GetLevel (s : LevelState) : Z := atomicLogLevel s.

(** What the goroutine of [SetLevelTemporarily] does once its timer has
    fired. *)
Definition reset (s : LevelState) : LevelState :=
  if atomicLogLevel s =? defaultLogLevel then s
  else SetLevel defaultLogLevel s.

(** [SetLevelTemporarily]. *)
Definition SetLevelTemporarily (level d : Z) (s : LevelState)
  : LevelState * (Z * option error) :=
  if level =? defaultLogLevel then
    (SetLevel defaultLogLevel s, (2 ^ 63 - 1, None))
  else
    let d := if d =? 0 then defaultTemporaryLogLevelChangeDuration else d in
    let d := if d >? maxDurationForTemporaryLogLevelChange
             then maxDurationForTemporaryLogLevelChange else d in
    let s := mkLevels (atomicLogLevel s) (sleepers s ++ [d]) in
    (SetLevel level s, (d, None)).

(** [t] nanoseconds pass: the goroutines whose wait is over run, the
    others have [t] less to wait. *)
Definition elapse (t : Z) (s : LevelState) : LevelState :=
  let due := List.filter (fun r => r <=? t) (sleepers s) in
  let later := List.filter (fun r => negb (r <=? t)) (sleepers s) in
  fold_left (fun s _ => reset s) due
            (mkLevels (atomicLogLevel s) (map (fun r => r - t) later)).

(** [GetLogDir]; [getenv] is [os.Getenv], the empty string for a variable
    that is not set. *)
Definition GetLogDir (getenv : string → string) : string :=
  if negb (String.eqb (getenv LogDirEnvVar) "") then getenv LogDirEnvVar
  else defaultLogDirName.

(** The configuration that [getLogFileWriter] hands to [NewFileWriter]. *)
Definition logFileConfig (getenv : string → string) : FileWriterConfig :=
  let logFileSizeMB :=
    if negb (String.eqb (getenv LogFileSizeEnvVar) "") then
      match Strconv.ParseInt (getenv LogFileSizeEnvVar) 64 with
      | Some size => size
      | None => 0
      end
    else 0 in
  let maxAge :=
    if negb (String.eqb (getenv LogFileMaxAgeEnvVar) "") then
      match Strconv.ParseInt (getenv LogFileMaxAgeEnvVar) 32 with
      | Some days => wrap64 (wrap64 (days * Hour) * 24)
      | None => 0
      end
    else 0 in
  mkConfig (GetLogDir getenv) logFileName true maxAge
           (wrap64 (wrap64 (logFileSizeMB * 1024) * 1024)).

(** [getLogFileWriter]. *)
Definition getLogFileWriter (getenv : string → string) : M FileWriter :=
  NewFileWriter (logFileConfig getenv).

End Logging.

(** ** Writers in step with the file system *)

Module Inv.
Import GoString OS FW Obs.

(** No system call fails. *)
Definition fault_free (σ : World) : Prop := ∀ s, faults σ s = None.

(** The writer holds the active file open and its byte counter is the
    size of that file. *)
Definition tracks (w : FileWriter) (σ : World) : Prop :=
  logFile w = Some (mkOsFile (logFileNameFullPath w) false) ∧
  ∃ f, files σ !! logFileNameFullPath w = Some f ∧ byteCounter w = len (data f).

(** The active path is the ordinary file name of the configuration in
    the directory of the configuration, as [NewFileWriter] makes it. *)
Definition well_named (w : FileWriter) : Prop :=
  plain (LogFileName (config w)) = true ∧
  logFileNameFullPath w =
    Path.Join [LogDirName (config w); LogFileName (config w)].

(** The archive of the active file of [w] at time [t]. *)
Definition archive_of (w : FileWriter) (t : Time.Time) : string :=
  Path.Join [LogDirName (config w); stamped (LogFileName (config w)) t].

(** The sweep removes the entry: its [Info] is available, it is older
    than the retention, and [os.Remove] does not fail. *)
Definition swept (c : FileWriterConfig) (σ : World) (ent : string * File) : bool :=
  match faults σ (SysLstat (Path.Join [LogDirName c; ent.1])),
        faults σ (SysRemove (Path.Join [LogDirName c; ent.1])) with
  | None, None => expired c σ ent
  | _, _ => false
  end.

(** The path is the one of an entry that the sweep removes. *)
Definition removed (c : FileWriterConfig) (σ : World)
    (ents : list (string * File)) (q : string) : bool :=
  existsb (fun ent => swept c σ ent
                      && String.eqb (Path.Join [LogDirName c; ent.1]) q) ents.

(** Every file is under a path made of a directory and an ordinary file
    name. *)
Definition clean_keys (fs : gmap string File) : Prop :=
  ∀ p f, fs !! p = Some f → ∃ d x, plain x = true ∧ p = Path.Join [d; x].

End Inv.

(** ** Concrete environments and writers *)

Module Scenario.
Import OS FW Obs.

(** An environment that sets the size variable only, and one that sets
    the age variable only. *)
Definition size_env : string → string :=
  fun k => if String.eqb k "TEST_LOG_FILE_SIZE_MB" then "5" else "".
Definition age_env : string → string :=
  fun k => if String.eqb k "TEST_LOG_FILE_MAX_AGE_DAYS" then "7" else "".

Definition empty_world : World := Sample.world ∅ Sample.no_fault.

(** What [getLogFileWriter] leaves on an empty file system. *)
Definition env_writer (keep size : Z) : FileWriter :=
  mkFileWriter None (mkConfig "./log" "test.log" true keep size)
               (Some (mkOsFile "log/test.log" false)) "log/test.log" 0 [].
Definition env_world : World :=
  Sample.world {[ "log/test.log" := mkFile "" 1000 ]} Sample.no_fault.

(** The active file cannot be opened. *)
Definition reopen_fails : syscall → option error :=
  fun s => match s with SysOpenFile _ => Some ErrPermission | _ => None end.

(** A writer with a retention of 10 nanoseconds, and a directory with a
    file that is older. *)
Definition keep_cfg : FileWriterConfig := mkConfig "logs" "app.log" true 10 10.
Definition keep_writer : FileWriter :=
  mkFileWriter None keep_cfg (Some (mkOsFile "logs/app.log" false))
               "logs/app.log" 0 [].
Definition old_file : File := mkFile "x" 0.
Definition old_world : World :=
  Sample.world {[ "logs/old.log" := old_file ]} Sample.no_fault.

End Scenario.

(** * Properties *)

Module Props.
Import GoString OS FW Obs.

Local Arguments Path.Join : simpl never.
Local Arguments Path.Clean : simpl never.
Local Arguments Path.Dir : simpl never.
Local Arguments Path.Base : simpl never.
Local Arguments Path.Ext : simpl never.
Local Arguments HasSuffix : simpl never.
Local Arguments Time.Format : simpl never.
Local Arguments wrap64 : simpl never.

Ltac unfold_m :=
  unfold mbind, M_bind, bind, mret, M_ret, ret, get, modify, panic, fatal in *.

(** Case analysis on the scrutinee of an innermost [match] of the goal. *)
Ltac case_inner :=
  match goal with
  | |- context [match ?x with _ => _ end] =>
      lazymatch x with
      | context [match _ with _ => _ end] => fail
      | _ => destruct x eqn:?
      end
  end.

(** ** Background compression always finishes *)

Lemma compress_returns w fn σ :
  ∃ σ', compress w fn σ = Ok (Done fn w) σ'.
Proof.
  unfold compress, Open, OpenFile, Copy, Rename, Remove. unfold_m.
  repeat (case_inner; cbn); eauto.
Qed.

Lemma remove_first_head fn l : remove_first fn (fn :: l) = l.
Proof. cbn. by rewrite String.eqb_refl. Qed.

Lemma run_drains (l : list string) : ∀ w rest σ,
  compressorWG w = (l ++ rest)%list →
  ∃ σ', run l w σ = Ok (set_compressorWG rest w) σ'.
Proof.
  induction l as [|fn l IH]; intros w rest σ Hw; cbn in *.
  - exists σ. destruct w; cbn in *; by subst.
  - destruct (compress_returns w fn σ) as [σ1 H1].
    unfold_m. rewrite H1.
    destruct (IH (Done fn w) rest σ1) as [σ2 H2].
    { unfold Done; cbn. rewrite Hw. apply remove_first_head. }
    exists σ2. rewrite H2. by destruct w.
Qed.

Lemma Wait_returns w σ :
  ∃ σ', Wait w σ = Ok (set_compressorWG [] w) σ'.
Proof. apply run_drains. by rewrite app_nil_r. Qed.

(** [Close] returns on every writer: the flag is set, no goroutine is
    left, and the file is closed unless it was nil. *)
Lemma Close_returns w σ :
  ∃ e σ',
    Close w σ =
      Ok (mkFileWriter (Some true) (config w)
            (match logFile w with
             | Some h => Some (mkOsFile (fname h) true)
             | None => None
             end)
            (logFileNameFullPath w) (byteCounter w) [], e) σ'.
Proof.
  unfold Close.
  destruct (Wait_returns (set_closed (Some true) w) σ) as [σ1 H1].
  unfold_m. rewrite H1. unfold File_Close. cbn.
  destruct (logFile w) as [[n c]|]; cbn; unfold_m.
  - destruct c; cbn; eauto.
  - eauto.
Qed.

(** C4. After [Close], every [Write] fails with the closed-writer error
    [os.ErrClosed], reports 0 bytes, and leaves the writer and every file
    as they were; this holds again for the next call, in any later state
    of the world. *)
Theorem write_after_close_fails w σ :
  ∃ w' e σ',
    Close w σ = Ok (w', e) σ' ∧
    ∀ msg σ2, Write w' msg σ2 = Ok (w', (0, Some ErrClosed)) σ2.
Proof.
  destruct (Close_returns w σ) as (e & σ' & H).
  eexists _, e, σ'. split; [exact H|].
  intros msg σ2. reflexivity.
Qed.

(** C9. A second [Close] does not panic: it returns an error and changes
    neither the writer nor the world.  The error is [os.ErrClosed] (file
    already closed) for every writer that holds a file, and
    [os.ErrInvalid] for a writer whose file is nil. *)
Theorem double_close_safe w σ :
  ∃ w1 e1 σ1,
    Close w σ = Ok (w1, e1) σ1 ∧
    ∀ σ2,
      Close w1 σ2 =
        Ok (w1, Some (match logFile w with
                      | Some _ => ErrClosed
                      | None => ErrInvalid
                      end)) σ2.
Proof.
  destruct (Close_returns w σ) as (e & σ' & H).
  eexists _, e, σ'. split; [exact H|].
  intros σ2. unfold Close, Wait. cbn. unfold_m.
  by destruct (logFile w) as [[n c]|].
Qed.

(** ** What the sweep and the initialisation leave unchanged *)

Lemma same_env_refl σ : same_env σ σ.
Proof. by repeat split. Qed.

Lemma same_env_trans σ1 σ2 σ3 :
  same_env σ1 σ2 → same_env σ2 σ3 → same_env σ1 σ3.
Proof. unfold same_env. intuition congruence. Qed.

Lemma same_env_set_files fs σ : same_env σ (set_files fs σ).
Proof. by repeat split. Qed.

Create HintDb fw.
Global Hint Resolve same_env_refl same_env_set_files : fw.

Lemma same_cfg_refl w : same_cfg w w.
Proof. by split. Qed.

Lemma same_cfg_trans w1 w2 w3 : same_cfg w1 w2 → same_cfg w2 w3 → same_cfg w1 w3.
Proof. unfold same_cfg. intuition congruence. Qed.

Global Hint Resolve same_cfg_refl : fw.

Lemma archiveName_eq current σ :
  archiveName current σ = Ok (archiveNameAt current (nowWall σ)) σ.
Proof. reflexivity. Qed.

Lemma archive_eq w fn σ :
  let newName := archiveNameAt (logFileNameFullPath w) (nowWall σ) in
  archive w fn σ =
    match faults σ (SysRename (logFileNameFullPath w) newName) with
    | Some e => Ok (w, Some e) σ
    | None =>
        match files σ !! logFileNameFullPath w with
        | Some f =>
            Ok (if Compress (config w) then go_compress newName w else w, None)
               (set_files (<[newName := f]> (delete (logFileNameFullPath w) (files σ))) σ)
        | None => Ok (w, Some ErrNotExist) σ
        end
    end.
Proof.
  unfold archive, Rename. unfold_m. rewrite archiveName_eq. cbn.
  repeat (case_inner; cbn); reflexivity.
Qed.

Lemma archive_returns w fn σ :
  ∃ w' e σ', archive w fn σ = Ok (w', e) σ' ∧ same_cfg w w' ∧ same_env σ σ'.
Proof.
  rewrite archive_eq. cbn.
  repeat (case_inner; cbn);
    (eexists _, _, _; split; [reflexivity|split; [by split|auto with fw]]).
Qed.

Lemma sweep_compresses_env c σ σ' ent :
  same_env σ σ' → sweep_compresses c σ' ent = sweep_compresses c σ ent.
Proof.
  intros (Hn & _ & Hf & _). unfold sweep_compresses, expired. by rewrite Hn, Hf.
Qed.

Lemma sweep_paths_env c σ σ' ents :
  same_env σ σ' → sweep_paths c σ' ents = sweep_paths c σ ents.
Proof.
  intros H. unfold sweep_paths. f_equal.
  induction ents as [|e r IH]; cbn; [done|].
  by rewrite (sweep_compresses_env _ _ _ _ H), IH.
Qed.

Lemma Remove_returns name σ :
  ∃ e σ', Remove name σ = Ok e σ' ∧ same_env σ σ'.
Proof.
  unfold Remove. unfold_m. repeat (case_inner; cbn); eauto with fw.
Qed.

(** The loop of the sweep returns, and the goroutines it starts are
    those of [sweep_paths], in directory order. *)
Lemma cleanup_loop_spec (ents : list (string * File)) : ∀ w σ,
  ∃ σ',
    cleanup_loop w ents σ =
      Ok (set_compressorWG
            (compressorWG w ++ sweep_paths (config w) σ ents)%list w) σ' ∧
    same_env σ σ'.
Proof.
  induction ents as [|ent rest IH]; intros w σ.
  - exists σ. split; [|apply same_env_refl].
    cbn. unfold sweep_paths; cbn. rewrite app_nil_r. by destruct w.
  - cbn [cleanup_loop]. unfold Info, Since. unfold_m.
    unfold sweep_paths. cbn [List.filter]. unfold sweep_compresses at 1.
    destruct (faults σ (SysLstat _)) as [e|] eqn:Hl; cbn.
    { apply IH. }
    unfold expired at 1. cbn.
    destruct (MaxTimeTimeToKeep (config w) >? 0) eqn:Hk; cbn.
    + destruct (_ >? MaxTimeTimeToKeep (config w)) eqn:Ha; cbn.
      * destruct (Remove_returns (Path.Join [LogDirName (config w); ent.1]) σ)
          as (e & σ1 & -> & Hs).
        destruct (IH w σ1) as (σ2 & -> & Hs2).
        exists σ2. split; [|by eapply same_env_trans].
        fold (sweep_paths (config w) σ rest).
        by rewrite (sweep_paths_env _ _ _ _ Hs).
      * destruct (HasSuffix ent.1 "log" && negb (String.eqb ent.1 (LogFileName (config w)))) eqn:Hc; cbn.
        -- destruct (IH (go_compress (Path.Join [LogDirName (config w); ent.1]) w) σ)
             as (σ2 & -> & Hs2).
           exists σ2. split; [|done]. cbn.
           fold (sweep_paths (config w) σ rest).
           by rewrite <- app_assoc.
        -- apply IH.
    + destruct (HasSuffix ent.1 "log" && negb (String.eqb ent.1 (LogFileName (config w)))) eqn:Hc; cbn.
      * destruct (IH (go_compress (Path.Join [LogDirName (config w); ent.1]) w) σ)
          as (σ2 & -> & Hs2).
        exists σ2. split; [|done]. cbn.
        fold (sweep_paths (config w) σ rest).
        by rewrite <- app_assoc.
      * apply IH.
Qed.

Lemma cleanup_spec w σ :
  ∃ σ',
    cleanup w σ =
      match faults σ (SysReadDir (LogDirName (config w))) with
      | Some e => Ok (w, Some e) σ'
      | None =>
          Ok (set_compressorWG
                (compressorWG w ++
                 sweep_paths (config w) σ
                   (entries (LogDirName (config w)) (files σ)))%list w, None) σ'
      end ∧
    same_env σ σ'.
Proof.
  unfold cleanup, ReadDir. unfold_m.
  destruct (faults σ (SysReadDir _)) as [e|]; cbn.
  - exists σ. split; [done|apply same_env_refl].
  - destruct (cleanup_loop_spec (entries (LogDirName (config w)) (files σ)) w σ)
      as (σ' & -> & Hs).
    by exists σ'.
Qed.

Lemma cleanup_returns w σ :
  ∃ w' e σ', cleanup w σ = Ok (w', e) σ' ∧ same_cfg w w' ∧ same_env σ σ'.
Proof.
  destruct (cleanup_spec w σ) as (σ' & H & Hs). rewrite H.
  destruct (faults σ _); eexists _, _, σ'; (split; [reflexivity|]);
    (split; [by split|done]).
Qed.

Lemma OpenFile_returns name trunc σ :
  ∃ f e σ', OpenFile name trunc σ = Ok (f, e) σ' ∧ same_env σ σ'.
Proof.
  unfold OpenFile. unfold_m. repeat (case_inner; cbn); eauto 10 with fw.
Qed.

Lemma Stat_returns name σ : ∃ r, Stat name σ = Ok r σ.
Proof. unfold Stat. unfold_m. repeat (case_inner; cbn); eauto. Qed.

(** [initialize] returns (with or without an error), and keeps the
    configuration and the path of the active file. *)
Lemma initialize_returns w σ :
  ∃ w' e σ', initialize w σ = Ok (w', e) σ' ∧ same_cfg w w'.
Proof.
  unfold initialize, MkdirAll. unfold_m.
  destruct (faults σ (SysMkdirAll _)); [eauto 10 with fw|].
  destruct (cleanup_returns w σ) as (w1 & e1 & σ1 & -> & Hc1 & _).
  destruct e1; [eauto 10|].
  destruct (Stat_returns (logFileNameFullPath w1) σ1) as ([info e] & ->).
  match goal with
  | |- context [match ?m σ1 with Ok _ _ => _ | Panic _ _ => _ | Fatal _ _ => _ end] =>
      assert (∃ w2 e2 σ2, m σ1 = Ok (w2, e2) σ2 ∧ same_cfg w1 w2)
        as (w2 & e2 & σ2 & -> & Hc2)
  end.
  { destruct info as [info|], e as [e|]; eauto 10 with fw.
    destruct (_ >=? _).
    - destruct (archive_returns w1 (logFileNameFullPath w1) σ1)
        as (w2 & e2 & σ2 & H & Hc & _). eauto 10.
    - eexists _, _, _. split; [reflexivity|by split]. }
  destruct e2; [eauto 10 using same_cfg_trans|].
  destruct (OpenFile_returns (logFileNameFullPath w2) false σ2)
    as (f & e3 & σ3 & -> & _).
  assert (same_cfg w (set_logFile f w2)).
  { eapply same_cfg_trans; [exact Hc1|]. eapply same_cfg_trans; [exact Hc2|].
    by split. }
  destruct e3; eauto 10.
Qed.


(** ** Writing and rotating *)

Lemma len_nonneg b : 0 <= len b.
Proof. unfold len. lia. Qed.

Lemma total_nonneg msgs : 0 <= total msgs.
Proof.
  induction msgs as [|m r IH]; [done|].
  change (0 <= len m + total r). pose proof (len_nonneg m). lia.
Qed.

Lemma substring_prefix_length n b :
  (String.length (String.substring 0 n b) <= String.length b)%nat.
Proof.
  revert n. induction b as [|c b IH]; intros [|n]; cbn; try lia.
  specialize (IH n). lia.
Qed.

Lemma File_Write_returns f msg σ :
  ∃ n err σ',
    File_Write f msg σ = Ok (n, err) σ' ∧
    0 <= n <= len msg ∧ (err = None → n = len msg) ∧ same_env σ σ'.
Proof.
  pose proof (len_nonneg msg).
  unfold File_Write. unfold_m.
  destruct f as [[name c]|]; cbn.
  - destruct c; cbn.
    + eexists _, _, _. split; [reflexivity|]. repeat split; try done; lia.
    + destruct (faults σ (SysWrite name)); cbn.
      * eexists _, _, _. split; [reflexivity|]. repeat split; try done.
        -- apply len_nonneg.
        -- unfold len. pose proof (substring_prefix_length (shortWrite σ) msg). lia.
      * eexists _, _, _. split; [reflexivity|]. repeat split; try done; lia.
  - eexists _, _, _. split; [reflexivity|]. repeat split; try done; lia.
Qed.

Lemma File_Close_returns f σ :
  ∃ f' e, File_Close f σ = Ok (f', e) σ.
Proof.
  unfold File_Close. unfold_m. repeat (case_inner; cbn); eauto.
Qed.

(** Every call of [rotate] is counted once, also when it panics. *)
Lemma rotate_counted w σ :
  rotations (world_of (rotate w σ)) = S (rotations σ).
Proof.
  unfold rotate, MkdirAll. unfold_m. cbn.
  destruct (logFile w) as [h|] eqn:Hf; [|done].
  destruct (File_Close_returns (Some h) (count_rotation σ)) as (f' & e & ->).
  destruct e; [done|]. cbn.
  destruct (faults σ (SysMkdirAll _)); [done|].
  destruct (archive_returns (set_logFile f' w) (logFileNameFullPath w) (count_rotation σ))
    as (w1 & e1 & σ1 & H1 & _ & Hs1).
  cbn in H1. rewrite H1.
  destruct (OpenFile_returns (logFileNameFullPath w1) false σ1)
    as (f2 & e2 & σ2 & -> & Hs2).
  assert (rotations σ2 = S (rotations σ)) as <-.
  { destruct Hs2 as (_&_&_&_&_&->). by destruct Hs1 as (_&_&_&_&_&->). }
  by destruct e2.
Qed.

(** One call of [Write] on a writer that is not closed. *)
Lemma Write_open w msg σ :
  closed w = None →
  ∃ n err σ1,
    File_Write (logFile w) msg σ = Ok (n, err) σ1 ∧
    (err = None → n = len msg) ∧ 0 <= n <= len msg ∧
    let w1 := set_byteCounter (wrap64 (byteCounter w + n)) w in
    if byteCounter w1 >? MaxLogFileSizeBytes (config w)
    then Write w msg σ =
           ('(w', _) ← rotate w1; mret (w', (n, err))) σ1 ∧
         rotations (world_of (Write w msg σ)) = S (rotations σ)
    else Write w msg σ = Ok (w1, (n, err)) σ1 ∧ rotations σ1 = rotations σ.
Proof.
  intros Hc.
  destruct (File_Write_returns (logFile w) msg σ) as (n & err & σ1 & H & Hn & He & Hs).
  exists n, err, σ1. repeat split; try done; try lia.
  cbv zeta. unfold Write. rewrite Hc. unfold_m. rewrite H. cbn.
  destruct (wrap64 (byteCounter w + n) >? MaxLogFileSizeBytes (config w)) eqn:Hgt.
  - split; [done|].
    pose proof (rotate_counted (set_byteCounter (wrap64 (byteCounter w + n)) w) σ1) as Hr.
    destruct (rotate _ σ1) as [[w' e'] σ'|msg' σ'|msg' σ']; cbn in *;
      rewrite Hr; by destruct Hs as (_&_&_&_&_&->).
  - split; [done|]. by destruct Hs as (_&_&_&_&_&->).
Qed.

Lemma wrap64_id x : MinInt64 <= x <= MaxInt64 → wrap64 x = x.
Proof.
  unfold wrap64, MinInt64, MaxInt64. intros H.
  rewrite Z.mod_small; lia.
Qed.

(** Writes that stay at or below the threshold never rotate. *)
Lemma writes_below_threshold (msgs : list string) : ∀ w σ,
  closed w = None →
  MinInt64 <= byteCounter w →
  byteCounter w + total msgs <= MaxLogFileSizeBytes (config w) →
  MaxLogFileSizeBytes (config w) <= MaxInt64 →
  ∃ w' rs σ',
    writes w msgs σ = Ok (w', rs) σ' ∧
    rotations σ' = rotations σ ∧
    byteCounter w' = byteCounter w + written rs ∧
    length rs = length msgs.
Proof.
  induction msgs as [|msg rest IH]; intros w σ Hc Hlo Hsum Hmax.
  - exists w, [], σ. cbn. repeat split; try done; lia.
  - cbn [total fold_right] in Hsum. fold (total rest) in Hsum.
    pose proof (total_nonneg rest) as Hrest.
    destruct (Write_open w msg σ Hc) as (n & err & σ1 & _ & _ & Hn & Hw).
    cbv zeta in Hw. cbn [byteCounter set_byteCounter] in Hw.
    rewrite wrap64_id in Hw by lia.
    destruct (byteCounter w + n >? MaxLogFileSizeBytes (config w)) eqn:Hgt; [lia|].
    destruct Hw as [Hw Hr1].
    destruct (IH (set_byteCounter (byteCounter w + n) w) σ1) as (w' & rs & σ' & H' & Hr' & Hb' & Hl');
      cbn; try done; try lia.
    exists w', ((n, err) :: rs), σ'.
    cbn [writes]. unfold_m. rewrite Hw. cbn. rewrite H'. cbn in *.
    repeat split; try done; try lia; try congruence.
    fold (written rs). lia.
Qed.

(** C5. On a writer that is not closed, [Write] adds the number of bytes
    that [File.Write] reports (the length of the payload when the append
    succeeds) to the byte counter, and calls [rotate] before it returns
    exactly when the counter is then above [MaxLogFileSizeBytes]; a
    sequence of writes whose cumulative size stays at or below the
    threshold causes no rotation. *)
Theorem write_counts_and_rotates (w : FileWriter) (msg : string)
    (msgs : list string) (σ : World) (Hopen : closed w = None) :
  (∃ n err σ1,
     File_Write (logFile w) msg σ = Ok (n, err) σ1 ∧
     (err = None → n = len msg) ∧
     let w1 := set_byteCounter (wrap64 (byteCounter w + n)) w in
     if byteCounter w1 >? MaxLogFileSizeBytes (config w)
     then Write w msg σ = ('(w', _) ← rotate w1; mret (w', (n, err))) σ1 ∧
          rotations (world_of (Write w msg σ)) = S (rotations σ)
     else Write w msg σ = Ok (w1, (n, err)) σ1 ∧
          rotations (world_of (Write w msg σ)) = rotations σ) ∧
  (MinInt64 <= byteCounter w →
   byteCounter w + total msgs <= MaxLogFileSizeBytes (config w) →
   MaxLogFileSizeBytes (config w) <= MaxInt64 →
   ∃ w' rs σ',
     writes w msgs σ = Ok (w', rs) σ' ∧
     rotations σ' = rotations σ ∧
     byteCounter w' = byteCounter w + written rs).
Proof.
  split.
  - destruct (Write_open w msg σ Hopen) as (n & err & σ1 & H & He & _ & Hw).
    exists n, err, σ1. split; [done|]. split; [done|].
    cbv zeta in *. destruct (_ >? _); [done|].
    destruct Hw as [-> Hr]. by split.
  - intros Hlo Hsum Hmax.
    destruct (writes_below_threshold msgs w σ Hopen Hlo Hsum Hmax)
      as (w' & rs & σ' & H & Hr & Hb & _).
    by exists w', rs, σ'.
Qed.

(** ** Concrete runs *)

(** C1 (the code does not do this). A write of 12 bytes that crosses the
    threshold of 10 while [MkdirAll] fails: [rotate] returns the failure,
    [Write] reports the 12 bytes that reached the file, and returns a nil
    error. *)
Theorem write_drops_rotation_error :
  let σ := Sample.world Sample.active Sample.mkdir_fails in
  let w1 := set_byteCounter 12 (Sample.writer true) in
  ∃ σ1 w2 σ2,
    File_Write (logFile (Sample.writer true)) "hello world!" σ = Ok (12, None) σ1 ∧
    data <$> files σ1 !! "logs/app.log" = Some "hello world!" ∧
    rotate w1 σ1 = Ok (w2, Some ErrPermission) σ2 ∧
    Write (Sample.writer true) "hello world!" σ = Ok (w2, (12, None)) σ2.
Proof.
  cbv zeta. eexists _, _, _.
  split; [vm_compute; reflexivity|].
  split; [vm_compute; reflexivity|].
  split; vm_compute; reflexivity.
Qed.

(** C3 (the code does not do this). A write that crosses the threshold
    while the rename of the archive fails: [rotate] drops the error of
    [archive], reopens the file that still holds the 12 bytes, and sets the
    byte counter to 0. *)
Theorem rotate_resets_counter_after_failed_rename :
  let σ := Sample.world Sample.active Sample.rename_fails in
  ∃ w2 r σ2,
    archive (Sample.writer true) "logs/app.log" σ
      = Ok (Sample.writer true, Some ErrPermission) σ ∧
    Write (Sample.writer true) "hello world!" σ = Ok (w2, r) σ2 ∧
    byteCounter w2 = 0 ∧
    rotations σ2 = 1%nat ∧
    data <$> files σ2 !! "logs/app.log" = Some "hello world!" ∧
    files σ2 !! Sample.archived = None.
Proof.
  cbv zeta. eexists _, _, _.
  split; [vm_compute; reflexivity|].
  split; [vm_compute; reflexivity|].
  repeat split; vm_compute; reflexivity.
Qed.

(** C6 (the code does not do this). With compression disabled the sweep
    of [NewFileWriter] still starts a compression for an old archive it
    finds, while a rotation of the same writer starts none. *)
Theorem sweep_compresses_when_disabled :
  let fs : gmap string File :=
    {[ "logs/app-2020.log" := mkFile "old" 0; "logs/app.log" := mkFile "" 0 ]} in
  let σ := Sample.world fs Sample.no_fault in
  Compress (Sample.cfg false) = false ∧
  ∃ w σ1 w2 r σ2,
    NewFileWriter (Sample.cfg false) σ = Ok w σ1 ∧
    compressorWG w = ["logs/app-2020.log"] ∧
    Write w "hello world!" σ1 = Ok (w2, r) σ2 ∧
    rotations σ2 = 1%nat ∧
    is_Some (files σ2 !! Sample.archived) ∧
    compressorWG w2 = ["logs/app-2020.log"].
Proof.
  cbv zeta. split; [reflexivity|]. eexists _, _, _, _, _.
  split; [vm_compute; reflexivity|].
  split; [vm_compute; reflexivity|].
  split; [vm_compute; reflexivity|].
  repeat split; try (vm_compute; reflexivity).
  vm_compute. eexists. reflexivity.
Qed.

(** C2 (the code does not do this). When the rename of the temporary
    output fails, [compress] goes on to delete the original archive and
    leaves the temporary file behind: neither the archive nor the compressed
    file exists afterwards. *)
Theorem compress_deletes_original_after_failed_rename :
  let fn := Sample.archived in
  let fs : gmap string File := {[ fn := mkFile "hello world!" 0 ]} in
  let σ := Sample.world fs Sample.rename_fails in
  ∃ w σ',
    compress (go_compress fn (Sample.writer true)) fn σ = Ok w σ' ∧
    files σ' !! fn = None ∧
    files σ' !! (fn +:+ ".gz") = None ∧
    data <$> files σ' !! (fn +:+ ".gz.processing") = Some "gz:hello world!".
Proof.
  cbv zeta. eexists _, _.
  split; [vm_compute; reflexivity|].
  repeat split; vm_compute; reflexivity.
Qed.

(** ** Byte strings *)

Lemma append_cons c a b : String c a +:+ b = String c (a +:+ b).
Proof. reflexivity. Qed.

Lemma append_nil_l a : "" +:+ a = a.
Proof. reflexivity. Qed.

Lemma append_nil_r s : s +:+ "" = s.
Proof. induction s as [|c s IH]; [done|]. by rewrite append_cons, IH. Qed.

Lemma append_assoc a b c : (a +:+ b) +:+ c = a +:+ b +:+ c.
Proof. induction a as [|x a IH]; [done|]. by rewrite !append_cons, IH. Qed.

Lemma length_append a b :
  String.length (a +:+ b) = (String.length a + String.length b)%nat.
Proof. induction a as [|x a IH]; [done|]. rewrite append_cons. cbn. by rewrite IH. Qed.

Lemma substring_append_l a b :
  String.substring 0 (String.length a) (a +:+ b) = a.
Proof.
  induction a as [|x a IH]; [by destruct b|].
  rewrite append_cons. cbn. by rewrite IH.
Qed.

Lemma drop_right_append a b : drop_right (String.length b) (a +:+ b) = a.
Proof.
  unfold drop_right. rewrite length_append.
  replace (String.length a + String.length b - String.length b)%nat
    with (String.length a) by lia.
  apply substring_append_l.
Qed.

Lemma no_slash_append a b : no_slash (a +:+ b) = no_slash a && no_slash b.
Proof.
  induction a as [|x a IH]; [done|].
  rewrite append_cons. cbn. rewrite IH. by rewrite andb_assoc.
Qed.

Lemma split_slash_cons s : ∃ h t, split_slash s = h :: t.
Proof.
  induction s as [|c s (h & t & IH)]; cbn; [eauto|].
  destruct (Ascii.eqb c "/"); [eauto|]. rewrite IH. eauto.
Qed.

Lemma split_slash_append a b :
  split_slash (a +:+ "/" +:+ b) = (split_slash a ++ split_slash b)%list.
Proof.
  induction a as [|c a IH]; [done|].
  rewrite append_cons. cbn.
  rewrite IH. destruct (Ascii.eqb c "/"); [done|].
  destruct (split_slash_cons a) as (h & t & ->). done.
Qed.

Lemma split_slash_no_slash s : no_slash s = true → split_slash s = [s].
Proof.
  induction s as [|c s IH]; cbn; [done|].
  destruct (Ascii.eqb c "/"); cbn; [done|]. intros H. by rewrite IH.
Qed.

Lemma split_slash_elems s : Forall (fun e => no_slash e = true) (split_slash s).
Proof.
  induction s as [|c s IH]; cbn; [by repeat constructor|].
  destruct (Ascii.eqb c "/") eqn:Hc; [by constructor|].
  destruct (split_slash_cons s) as (h & t & Hs). rewrite Hs in *.
  inversion IH as [|? ? Hh Ht]; subst. constructor; [|done]. cbn. by rewrite Hc.
Qed.

Lemma join_slash_cons x y l :
  join_slash (x :: y :: l) = x +:+ "/" +:+ join_slash (y :: l).
Proof. done. Qed.

Lemma join_slash_snoc l x :
  l ≠ [] → join_slash (l ++ [x]) = join_slash l +:+ "/" +:+ x.
Proof.
  induction l as [|a l IH]; [done|]. intros _.
  destruct l as [|b l]; [done|].
  change ((a :: b :: l) ++ [x])%list with (a :: b :: (l ++ [x]))%list.
  rewrite !join_slash_cons.
  change (b :: (l ++ [x]))%list with ((b :: l) ++ [x])%list.
  rewrite IH by done. by rewrite !append_assoc.
Qed.

Lemma split_join_slash l :
  l ≠ [] → Forall (fun e => no_slash e = true) l →
  split_slash (join_slash l) = l.
Proof.
  induction l as [|a l IH]; [done|]. intros _ Hall.
  inversion Hall as [|? ? Ha Hl]; subst.
  destruct l as [|b l]; [by apply split_slash_no_slash|].
  rewrite join_slash_cons, split_slash_append, IH by done.
  by rewrite split_slash_no_slash.
Qed.

(** ** Cleaned paths *)

Lemma plain_no_slash e : plain e = true → no_slash e = true.
Proof. unfold plain. by intros [[[? _]%andb_prop _]%andb_prop _]%andb_prop. Qed.

Lemma plain_nonempty e : plain e = true → e ≠ "".
Proof. intros H ->. discriminate. Qed.

Lemma clean_step_plain root st e : plain e = true → Path.clean_step root st e = e :: st.
Proof.
  unfold plain, Path.clean_step. intros H.
  apply andb_prop in H as [H H3]. apply andb_prop in H as [H H2].
  apply andb_prop in H as [_ H1].
  apply negb_true_iff in H1, H2, H3. by rewrite H1, H2, H3.
Qed.

Lemma all_dots_good st : Forall (fun e => e = "..") st → good false st.
Proof.
  induction 1 as [|e st -> Hst IH]; [constructor|]. by apply good_dots.
Qed.

Lemma good_tail root e st : good root (e :: st) → good root st.
Proof.
  inversion 1 as [|? Hr Hd|]; subst; [|done]. by apply all_dots_good.
Qed.

Lemma clean_step_good root st e :
  no_slash e = true → good root st → good root (Path.clean_step root st e).
Proof.
  intros He Hst. unfold Path.clean_step.
  destruct (String.eqb_spec e "") as [->|H1]; [done|].
  destruct (String.eqb_spec e ".") as [->|H2]; [done|]. cbn.
  destruct (String.eqb_spec e "..") as [->|H3].
  - destruct st as [|top st].
    + destruct root; [constructor|]. by apply good_dots.
    + destruct (String.eqb_spec top "..") as [->|Ht].
      * inversion Hst as [|? Hr Hd|? ? Hp]; subst; [|discriminate].
        apply good_dots; [done|]. by constructor.
      * by apply good_tail in Hst.
  - apply good_plain; [|done]. unfold plain. rewrite He. cbn.
    apply String.eqb_neq in H1, H2, H3. by rewrite H1, H2, H3.
Qed.

Lemma fold_clean_good root (l : list string) : ∀ st,
  Forall (fun e => no_slash e = true) l → good root st →
  good root (fold_left (Path.clean_step root) l st).
Proof.
  induction l as [|e l IH]; intros st Hl Hst; [done|].
  inversion Hl; subst. cbn. apply IH; [done|]. by apply clean_step_good.
Qed.

Lemma good_dir_elems d : good (Path.rooted d) (rev (dir_elems d)).
Proof.
  unfold dir_elems, Path.clean_elems. rewrite rev_involutive.
  apply fold_clean_good; [apply split_slash_elems|constructor].
Qed.

(** Cleaning leaves a cleaned element list as it is. *)
Lemma clean_good_id root (st : list string) :
  good root st → fold_left (Path.clean_step root) (rev st) [] = st.
Proof.
  induction st as [|e st IH]; [done|]. intros Hg.
  cbn [rev]. rewrite fold_left_app. cbn [fold_left].
  rewrite IH by (by eapply good_tail).
  inversion Hg as [|? Hr Hd|? ? Hp]; subst; [|by apply clean_step_plain].
  destruct Hd as [|? ? ->]; done.
Qed.

Lemma good_elems root st :
  good root st → Forall (fun e => no_slash e = true ∧ e ≠ "") st.
Proof.
  induction st as [|e st IH]; [constructor|]. intros Hg.
  constructor; [|by eapply IH, good_tail].
  inversion Hg as [|? Hr Hd|? ? Hp]; subst; [done|].
  split; [by apply plain_no_slash|by apply plain_nonempty].
Qed.

Lemma good_elems_rev root (E : list string) :
  good root (rev E) → Forall (fun e => no_slash e = true ∧ e ≠ "") E.
Proof.
  intros H%good_elems. rewrite <- (rev_involutive E).
  by apply Forall_rev.
Qed.

Lemma rooted_no_slash e : no_slash e = true → Path.rooted e = false.
Proof. destruct e as [|c e]; [done|]. cbn. by destruct (Ascii.eqb c "/"). Qed.

Lemma rooted_append a b : a ≠ "" → Path.rooted (a +:+ b) = Path.rooted a.
Proof. by destruct a. Qed.

Lemma rooted_join_slash (E : list string) :
  Forall (fun e => no_slash e = true ∧ e ≠ "") E →
  Path.rooted (join_slash E) = false.
Proof.
  destruct 1 as [|e E [He Hne] HE]; [done|].
  destruct E as [|e' E]; [by apply rooted_no_slash|].
  rewrite join_slash_cons, rooted_append by done. by apply rooted_no_slash.
Qed.

Lemma rooted_render root (E : list string) :
  Forall (fun e => no_slash e = true ∧ e ≠ "") E →
  Path.rooted (Path.render root E) = root.
Proof.
  intros HE. unfold Path.render. destruct root; [done|].
  rewrite append_nil_l. by apply rooted_join_slash.
Qed.

Lemma split_render root (E : list string) :
  E ≠ [] → Forall (fun e => no_slash e = true) E →
  split_slash (Path.render root E) = if root then "" :: E else E.
Proof.
  intros Hne HE. unfold Path.render. destruct root.
  - change ("/" +:+ join_slash E) with ("" +:+ "/" +:+ join_slash E).
    rewrite split_slash_append. by rewrite split_join_slash.
  - rewrite append_nil_l. by apply split_join_slash.
Qed.

Lemma render_nonempty root (E : list string) x : Path.render root (E ++ [x]) ≠ "" ∨ x = "".
Proof.
  destruct (String.eqb_spec x "") as [->|Hx]; [by right|left].
  unfold Path.render. intros H.
  assert (String.length (join_slash (E ++ [x])) = 0%nat) as Hl.
  { destruct root; [discriminate|]. by rewrite append_nil_l in H; rewrite H. }
  destruct E as [|e E].
  - cbn in Hl. by destruct x.
  - rewrite join_slash_snoc, !length_append in Hl by done. cbn in Hl. lia.
Qed.

Lemma Forall_fst_no_slash (E : list string) :
  Forall (fun e => no_slash e = true ∧ e ≠ "") E →
  Forall (fun e => no_slash e = true) E.
Proof. intros H. eapply Forall_impl; [exact H|]. by intros ? [? _]. Qed.

(** The elements of a path made of cleaned elements are these elements. *)
Lemma clean_elems_render root (E : list string) :
  good root (rev E) →
  Path.clean_elems root (split_slash (Path.render root E)) = E.
Proof.
  intros Hg. unfold Path.clean_elems.
  destruct (decide (E = [])) as [->|Hne]; [by destruct root|].
  rewrite split_render;
    [|done|by eapply Forall_fst_no_slash, good_elems_rev].
  pose proof (clean_good_id root _ Hg) as Hid. rewrite rev_involutive in Hid.
  destruct root.
  - change (fold_left (Path.clean_step true) ("" :: E) [])
      with (fold_left (Path.clean_step true) E []).
    by rewrite Hid, rev_involutive.
  - by rewrite Hid, rev_involutive.
Qed.

Lemma dir_elems_render root (E : list string) :
  good root (rev E) → dir_elems (Path.render root E) = E.
Proof.
  intros Hg. unfold dir_elems.
  rewrite rooted_render by (by eapply good_elems_rev).
  by apply clean_elems_render.
Qed.

(** [Join] of a directory and an ordinary file name. *)
Lemma Join_plain d x :
  plain x = true →
  Path.Join [d; x] = Path.render (Path.rooted d) (dir_elems d ++ [x]).
Proof.
  intros Hx. pose proof (plain_no_slash _ Hx) as Hs.
  pose proof (plain_nonempty _ Hx) as Hne.
  assert (∀ root (E : list string),
            (if String.eqb (Path.render root (E ++ [x])) "" then "."
             else Path.render root (E ++ [x])) = Path.render root (E ++ [x])) as Hr.
  { intros root E. destruct (render_nonempty root E x) as [H|H]; [|done].
    apply String.eqb_neq in H. by rewrite H. }
  unfold Path.Join.
  destruct (String.eqb_spec d "") as [->|Hd].
  - apply String.eqb_neq in Hne. rewrite Hne.
    cbn [join_slash]. unfold Path.Clean. rewrite Hne.
    rewrite rooted_no_slash by done.
    unfold Path.clean_elems. rewrite split_slash_no_slash by done.
    cbn [fold_left]. rewrite clean_step_plain by done.
    cbn [rev app dir_elems]. apply (Hr false []).
  - rewrite join_slash_cons. cbn [join_slash].
    unfold Path.Clean.
    assert (String.eqb (d +:+ "/" +:+ x) "" = false) as ->.
    { apply String.eqb_neq. by destruct d. }
    rewrite rooted_append by done.
    unfold Path.clean_elems, dir_elems, Path.clean_elems.
    rewrite split_slash_append, fold_left_app, split_slash_no_slash by done.
    cbn [fold_left]. rewrite clean_step_plain by done.
    cbn [rev]. apply Hr.
Qed.

Lemma split_render_snoc root (E : list string) x :
  good root (rev E) → no_slash x = true →
  split_slash (Path.render root (E ++ [x])) =
    ((if root then [""] else []) ++ E ++ [x])%list.
Proof.
  intros Hg Hx. rewrite split_render.
  - by destruct root.
  - by destruct E.
  - apply Forall_app. split; [|by repeat constructor].
    by eapply Forall_fst_no_slash, good_elems_rev.
Qed.

Lemma render_snoc_neq root (E : list string) x :
  x ≠ "" → String.eqb (Path.render root (E ++ [x])) "" = false.
Proof.
  intros Hx. apply String.eqb_neq.
  by destruct (render_nonempty root E x).
Qed.

(** The last element of a cleaned path that ends in an ordinary element. *)
Lemma Base_render root (E : list string) x :
  good root (rev E) → plain x = true →
  Path.Base (Path.render root (E ++ [x])) = x.
Proof.
  intros Hg Hx. pose proof (plain_no_slash _ Hx) as Hs.
  pose proof (plain_nonempty _ Hx) as Hne.
  unfold Path.Base. rewrite render_snoc_neq by done.
  rewrite split_render_snoc by done.
  rewrite app_assoc, filter_app, filter_cons_True, filter_nil.
  - by rewrite last_snoc.
  - unfold Path.nonempty. apply String.eqb_neq in Hne. by rewrite Hne.
Qed.

Lemma last_split_render root (E : list string) x :
  good root (rev E) → plain x = true →
  last (split_slash (Path.render root (E ++ [x]))) = Some x.
Proof.
  intros Hg Hx. rewrite split_render_snoc by (done || by apply plain_no_slash).
  by rewrite app_assoc, last_snoc.
Qed.

Lemma Ext_render root (E : list string) x :
  good root (rev E) → plain x = true →
  Path.Ext (Path.render root (E ++ [x])) = default "" (last_dot x).
Proof. intros Hg Hx. unfold Path.Ext. by rewrite last_split_render. Qed.

(** The directory of a cleaned path that ends in an ordinary element is
    the path of the elements before it. *)
Lemma Dir_render root (E : list string) x :
  good root (rev E) → plain x = true →
  Path.rooted (Path.Dir (Path.render root (E ++ [x]))) = root ∧
  dir_elems (Path.Dir (Path.render root (E ++ [x]))) = E.
Proof.
  intros Hg Hx. unfold Path.Dir. rewrite last_split_render by done.
  cbn [default].
  destruct (decide (E = [])) as [->|Hne].
  - unfold Path.render. cbn [app join_slash].
    rewrite drop_right_append. by destruct root.
  - assert (Path.render root (E ++ [x]) = (Path.render root E +:+ "/") +:+ x) as ->.
    { unfold Path.render. rewrite join_slash_snoc by done.
      by rewrite !append_assoc. }
    rewrite drop_right_append.
    assert (Path.render root E ≠ "") as Hr.
    { destruct E as [|e E]; [done|]. unfold Path.render.
      destruct root; [done|]. rewrite append_nil_l.
      apply good_elems_rev in Hg. inversion Hg as [|? ? [_ He] _]; subst.
      destruct E; [done|]. rewrite join_slash_cons. by destruct e. }
    assert (Path.Clean (Path.render root E +:+ "/") = Path.render root E) as ->.
    { unfold Path.Clean.
      assert (String.eqb (Path.render root E +:+ "/") "" = false) as ->.
      { apply String.eqb_neq. by destruct (Path.render root E). }
      rewrite rooted_append by done.
      rewrite rooted_render by (by eapply good_elems_rev).
      replace (Path.render root E +:+ "/") with (Path.render root E +:+ "/" +:+ "")
        by done.
      rewrite split_slash_append. unfold Path.clean_elems.
      rewrite fold_left_app. cbn [split_slash fold_left].
      change (Path.clean_step root ?st "") with st.
      fold (Path.clean_elems root (split_slash (Path.render root E))).
      rewrite clean_elems_render by done.
      apply String.eqb_neq in Hr. by rewrite Hr. }
    split; [by eapply rooted_render, good_elems_rev|by apply dir_elems_render].
Qed.

(** A file put next to [d/x] is [d/y]. *)
Lemma Join_Dir_Join d x y :
  plain x = true → plain y = true →
  Path.Join [Path.Dir (Path.Join [d; x]); y] = Path.Join [d; y].
Proof.
  intros Hx Hy. rewrite (Join_plain d x Hx), !(Join_plain _ y Hy).
  destruct (Dir_render (Path.rooted d) (dir_elems d) x (good_dir_elems d) Hx)
    as [-> ->]. done.
Qed.

Lemma Base_Join d x : plain x = true → Path.Base (Path.Join [d; x]) = x.
Proof.
  intros Hx. rewrite Join_plain by done.
  apply Base_render; [apply good_dir_elems|done].
Qed.

Lemma Ext_Join d x :
  plain x = true → Path.Ext (Path.Join [d; x]) = default "" (last_dot x).
Proof.
  intros Hx. rewrite Join_plain by done.
  apply Ext_render; [apply good_dir_elems|done].
Qed.

(** ** Archive names *)

Lemma last_dot_suffix x e : last_dot x = Some e → ∃ pre, x = pre +:+ e.
Proof.
  revert e. induction x as [|c x IH]; intros e; cbn; [done|].
  destruct (last_dot x) as [e'|].
  - intros [= <-]. destruct (IH e' eq_refl) as [pre ->].
    exists (String c pre). by rewrite append_cons.
  - destruct (Ascii.eqb c "."); [|done]. intros [= <-]. by exists "".
Qed.



Lemma stem_ext x : stem_of x +:+ ext_of x = x.
Proof.
  unfold stem_of, ext_of. destruct (last_dot x) as [e|] eqn:He; cbn [default].
  - destruct (last_dot_suffix _ _ He) as [pre ->]. by rewrite drop_right_append.
  - rewrite append_nil_r. unfold drop_right. cbn [String.length].
    rewrite Nat.sub_0_r. rewrite <- (append_nil_r x) at 2.
    apply substring_append_l.
Qed.


Lemma no_slash_stem_ext x :
  no_slash x = true → no_slash (stem_of x) = true ∧ no_slash (ext_of x) = true.
Proof.
  intros Hx. rewrite <- (stem_ext x), no_slash_append in Hx.
  by apply andb_prop in Hx.
Qed.

Lemma digit_no_slash n : Ascii.eqb (Time.digit n) "/" = false.
Proof.
  unfold Time.digit.
  assert (Z.to_nat (n mod 10) < 10)%nat as Hk.
  { pose proof (Z.mod_pos_bound n 10). lia. }
  revert Hk. generalize (Z.to_nat (n mod 10)). intros k Hk.
  do 10 (destruct k as [|k]; [reflexivity|]). lia.
Qed.

Lemma no_slash_fixed w : ∀ n, no_slash (Time.fixed w n) = true.
Proof.
  induction w as [|w IH]; intros n; [done|].
  cbn [Time.fixed]. rewrite no_slash_append, IH. cbn.
  by rewrite digit_no_slash.
Qed.

Lemma no_slash_decimal fuel : ∀ n, no_slash (Time.decimal fuel n) = true.
Proof.
  induction fuel as [|k IH]; intros n; [done|].
  cbn [Time.decimal]. rewrite no_slash_append.
  assert (no_slash (String (Time.digit n) "") = true) as ->
    by (cbn; by rewrite digit_no_slash).
  destruct (n <? 10); [done|]. by rewrite IH.
Qed.

Lemma no_slash_appendInt x w : no_slash (Time.appendInt x w) = true.
Proof.
  unfold Time.appendInt. rewrite no_slash_append.
  assert (no_slash (if x <? 0 then "-" else "") = true) as ->
    by (by destruct (x <? 0)).
  destruct (_ <? _); [apply no_slash_fixed|apply no_slash_decimal].
Qed.

Lemma no_slash_Format t : no_slash (Time.Format t) = true.
Proof.
  unfold Time.Format.
  rewrite !no_slash_append, !no_slash_appendInt, no_slash_fixed. done.
Qed.

Lemma plain_dashed stem rest :
  no_slash stem = true → no_slash rest = true →
  plain (stem +:+ "-" +:+ rest) = true.
Proof.
  intros Hs Hr. unfold plain.
  rewrite !no_slash_append, Hs, Hr. cbn [no_slash andb negb Ascii.eqb].
  assert (∀ z, z ∈ [""; "."; ".."] → String.eqb (stem +:+ "-" +:+ rest) z = false) as H.
  { intros z Hz. apply String.eqb_neq. intros Heq.
    change ("-" +:+ rest) with (String "-" rest) in Heq.
    destruct stem as [|c1 [|c2 [|c3 stem]]];
      rewrite ?append_cons, ?append_nil_l in Heq;
      repeat (apply elem_of_cons in Hz as [->|Hz]; [discriminate|]);
      by apply elem_of_nil in Hz. }
  rewrite !H by (repeat constructor). done.
Qed.

Lemma plain_stamped x t : no_slash x = true → plain (stamped x t) = true.
Proof.
  intros Hx. destruct (no_slash_stem_ext x Hx) as [Hs He].
  unfold stamped. apply plain_dashed; [done|].
  by rewrite no_slash_append, no_slash_Format, He.
Qed.

(** The archive of the file [x] of directory [d] is the file of [d]
    named [stamped x t]. *)
Lemma archiveNameAt_Join d x t :
  plain x = true →
  archiveNameAt (Path.Join [d; x]) t = Path.Join [d; stamped x t].
Proof.
  intros Hx. unfold archiveNameAt.
  rewrite Base_Join, Ext_Join by done.
  apply (Join_Dir_Join d x (stamped x t) Hx).
  by apply plain_stamped, plain_no_slash.
Qed.

Lemma stamped_neq x t : stamped x t ≠ x.
Proof.
  intros H. apply (f_equal String.length) in H.
  rewrite <- (stem_ext x) in H at 2. unfold stamped in H.
  rewrite !length_append in H. cbn in H. lia.
Qed.

Lemma archiveNameAt_neq d x t :
  plain x = true → archiveNameAt (Path.Join [d; x]) t ≠ Path.Join [d; x].
Proof.
  intros Hx H. rewrite archiveNameAt_Join in H by done.
  apply (f_equal Path.Base) in H.
  rewrite !Base_Join in H by (done || by apply plain_stamped, plain_no_slash).
  by apply stamped_neq in H.
Qed.

(** ** The active file found at construction *)



(** ** The time stamp *)














(** ** The names of the compressed files *)

Lemma append_neq a b : b ≠ "" → a +:+ b ≠ a.
Proof.
  intros Hb H. apply (f_equal String.length) in H.
  rewrite length_append in H. destruct b; [done|]. cbn in H. lia.
Qed.

Lemma compressed_names_distinct fn :
  compressedName fn ≠ fn ∧ tempName fn ≠ fn ∧ tempName fn ≠ compressedName fn.
Proof.
  unfold tempName, compressedName. repeat split.
  - by apply append_neq.
  - rewrite append_assoc. by apply append_neq.
  - by apply append_neq.
Qed.




(** ** What the dropped errors amount to *)

(** The error that [Write] returns is the one of the append, whatever
    [rotate] returned. *)
Lemma Write_error_is_append_error w msg σ w' n e σ' :
  closed w = None →
  Write w msg σ = Ok (w', (n, e)) σ' →
  ∃ σ1, File_Write (logFile w) msg σ = Ok (n, e) σ1.
Proof.
  intros Hc Hw.
  destruct (Write_open w msg σ Hc) as (n0 & e0 & σ1 & Hf & _ & _ & H).
  exists σ1. cbv zeta in H.
  destruct (_ >? _).
  - destruct H as [H _]. rewrite H in Hw. unfold_m.
    destruct (rotate _ σ1) as [[w2 e2] σ2| |]; [|done|done].
    by injection Hw as _ <- <- _.
  - destruct H as [H _]. rewrite H in Hw. by injection Hw as _ <- <- _.
Qed.

(** The goroutines that the sweep starts do not depend on [Compress]. *)
Lemma sweep_ignores_Compress c b σ ents :
  sweep_paths (mkConfig (LogDirName c) (LogFileName c) b
                        (MaxTimeTimeToKeep c) (MaxLogFileSizeBytes c)) σ ents
  = sweep_paths c σ ents.
Proof. reflexivity. Qed.

(** [rotate] sets the byte counter to 0 as soon as closing, [MkdirAll]
    and reopening succeed, whether or not the rename did. *)
Lemma rotate_resets_counter w h σ :
  logFile w = Some h → fclosed h = false →
  faults σ (SysClose (fname h)) = None →
  faults σ (SysMkdirAll (LogDirName (config w))) = None →
  faults σ (SysOpenFile (logFileNameFullPath w)) = None →
  ∃ w' σ', rotate w σ = Ok (w', None) σ' ∧ byteCounter w' = 0.
Proof.
  intros Hf Hh Hcl Hmk Hop.
  unfold rotate, File_Close, MkdirAll. unfold_m. cbn.
  rewrite Hf, Hh. cbn. rewrite Hcl.
  change (faults (count_rotation σ)) with (faults σ). rewrite Hmk.
  destruct (archive_returns (set_logFile (Some (mkOsFile (fname h) true)) w)
              (logFileNameFullPath w) (count_rotation σ))
    as (w1 & e1 & σ1 & H1 & [_ Hp] & (_ & _ & Hfl & _)).
  cbn in H1, Hp. rewrite H1. cbn.
  unfold OpenFile. unfold_m. cbn. rewrite Hp, Hfl. cbn. rewrite Hop.
  destruct (files σ1 !! logFileNameFullPath w); cbn; eauto.
Qed.

(** [compress] after a failed rename: the original is removed, the
    temporary file stays, and there is no compressed file. *)
Lemma compress_rename_failure w fn σ f e :
  files σ !! fn = Some f →
  faults σ (SysOpen fn) = None →
  faults σ (SysOpenFile (tempName fn)) = None →
  faults σ (SysCopy fn (tempName fn)) = None →
  faults σ (SysRename (tempName fn) (compressedName fn)) = Some e →
  faults σ (SysRemove fn) = None →
  ∃ σ',
    compress w fn σ = Ok (Done fn w) σ' ∧
    files σ' !! fn = None ∧
    files σ' !! tempName fn = Some (mkFile (gzip σ (data f)) (nowNano σ)) ∧
    files σ' !! compressedName fn = files σ !! compressedName fn.
Proof.
  intros Hf Ho Hof Hc Hr Hrm.
  destruct (compressed_names_distinct fn) as (Hgz & Htmp & Htg).
  unfold compress, Open, OpenFile, Copy, Rename, Remove. unfold_m.
  fold (compressedName fn). fold (tempName fn).
  cbn. rewrite Ho, Hf. cbn. rewrite Hof.
  destruct (files σ !! tempName fn) as [old|] eqn:Hold; cbn;
    rewrite Hc; cbn;
    rewrite ?lookup_insert_ne by done; rewrite Hf; cbn;
    rewrite Hr; cbn; rewrite Hrm; cbn;
    rewrite ?lookup_alter_ne, ?lookup_insert_ne by done; rewrite ?Hf; cbn;
    (eexists; split; [reflexivity|]); cbn;
    rewrite lookup_delete_eq, !lookup_delete_ne by done;
    rewrite ?lookup_alter_eq, ?lookup_insert_eq,
            ?lookup_alter_ne, ?lookup_insert_ne by done;
    done.
Qed.

(** The slice [filename[:len(filename)-len(ext)]] of [archiveName] is
    always in range. *)
Lemma Ext_within_Base p :
  (String.length (Path.Ext p) <= String.length (Path.Base p))%nat.
Proof.
  unfold Path.Ext, Path.Base.
  destruct (split_slash_cons p) as (h & t & Hs).
  destruct (last (split_slash p)) as [e|] eqn:Hl;
    [|apply last_None in Hl; by rewrite Hs in Hl].
  apply last_Some in Hl as [l' Hl].
  destruct (last_dot e) as [x|] eqn:Hd; cbn [default]; [|cbn; lia].
  destruct (last_dot_suffix _ _ Hd) as [pre ->].
  assert (p ≠ "") as Hp.
  { intros ->. cbn in Hl. destruct l' as [|a l']; [|by destruct l'].
    injection Hl as Hl. destruct pre.
    - rewrite append_nil_l in Hl. by subst x.
    - by rewrite append_cons in Hl. }
  apply String.eqb_neq in Hp. rewrite Hp, Hl.
  rewrite filter_app, filter_cons_True, filter_nil, last_snoc.
  - rewrite length_append. unfold id. lia.
  - unfold Path.nonempty. apply negb_true_iff, String.eqb_neq.
    intros H. apply (f_equal String.length) in H.
    rewrite length_append in H.
    assert (x ≠ "") as Hx.
    { clear -Hd. revert Hd. generalize (pre +:+ x). intros s.
      induction s as [|c s IH]; cbn; [done|].
      destruct (last_dot s); [done|].
      destruct (Ascii.eqb c "."); [|done]. by intros [= <-]. }
    destruct x; [done|]. cbn in H. lia.
Qed.

(** [NewFileWriter] on the empty configuration and an empty file system:
    the writer is on ["log/log.log"] with the default threshold. *)
Example new_writer_on_empty_config :
  ∃ w σ',
    NewFileWriter (mkConfig "" "" false 0 0) (Sample.world ∅ Sample.no_fault)
      = Ok w σ' ∧
    logFileNameFullPath w = "log/log.log" ∧
    MaxLogFileSizeBytes (config w) = 1000000 ∧
    files σ' !! "log/log.log" = Some (mkFile "" 1000).
Proof.
  eexists _, _. split; [vm_compute; reflexivity|].
  repeat split; vm_compute; reflexivity.
Qed.

(** The scenario of [TestFileWriter]: a threshold of 1000 bytes and 120
    writes of 50 bytes.  Every write reports its 50 bytes and no error, and
    the writer rotates five times, after each 21st write. *)
Example test_file_writer_scenario :
  let payload := "abcdefghijklmnopqrstuvwxyzABCDEFGHIJKLMNOPQRSTUVWX" in
  ∃ w0 σ0 w rs σ,
    NewFileWriter (mkConfig "dir" "logfile.log" true 1 1000)
      (Sample.world ∅ Sample.no_fault) = Ok w0 σ0 ∧
    writes w0 (replicate 120 payload) σ0 = Ok (w, rs) σ ∧
    Forall (fun r => r = (50, None)) rs ∧
    rotations σ = 5%nat ∧
    byteCounter w = 750.
Proof.
  cbv zeta. eexists _, _, _, _, _.
  split; [vm_compute; reflexivity|].
  split; [vm_compute; reflexivity|].
  split; [|split; vm_compute; reflexivity].
  repeat constructor.
Qed.

(** ** The theorems at work on concrete inputs *)

Lemma write_counts_and_rotates_witness :
  let w := Sample.writer true in
  let σ := Sample.world Sample.active Sample.no_fault in
  let msgs := ["hello"; "world"] in
  closed w = None ∧
  MinInt64 <= byteCounter w ∧
  byteCounter w + total msgs <= MaxLogFileSizeBytes (config w) ∧
  MaxLogFileSizeBytes (config w) <= MaxInt64 ∧
  ∃ w' rs σ',
    writes w msgs σ = Ok (w', rs) σ' ∧
    rotations σ' = rotations σ ∧
    byteCounter w' = byteCounter w + written rs.
Proof.
  cbv zeta.
  assert (closed (Sample.writer true) = None) as Hopen by reflexivity.
  split; [exact Hopen|].
  split; [vm_compute; discriminate|].
  split; [vm_compute; discriminate|].
  split; [vm_compute; discriminate|].
  apply (proj2 (write_counts_and_rotates (Sample.writer true) "hello world!"
                  ["hello"; "world"]
                  (Sample.world Sample.active Sample.no_fault) Hopen));
    vm_compute; discriminate.
Defined.



End Props.

(** * Further properties of the package *)

Module More.
Import GoString OS FW Obs Logging Inv Props.

Local Arguments Path.Join : simpl never.
Local Arguments Path.Clean : simpl never.
Local Arguments Path.Dir : simpl never.
Local Arguments Path.Base : simpl never.
Local Arguments Path.Ext : simpl never.
Local Arguments HasSuffix : simpl never.
Local Arguments Time.Format : simpl never.
Local Arguments wrap64 : simpl never.

(** ** Temporary log levels *)

Lemma GetLevel_reset s : GetLevel (reset s) = defaultLogLevel.
Proof.
  unfold reset. destruct (atomicLogLevel s =? defaultLogLevel) eqn:H; [|done].
  by apply Z.eqb_eq in H.
Qed.

Lemma GetLevel_resets (due : list Z) : ∀ s,
  GetLevel (fold_left (fun s _ => reset s) due s) =
    if decide (due = []) then GetLevel s else defaultLogLevel.
Proof.
  induction due as [|r due IH]; intros s; [done|].
  cbn [fold_left]. rewrite IH. destruct (decide (due = [])); [|done].
  apply GetLevel_reset.
Qed.

(** When the wait of one of the goroutines is over, the level is the
    default one. *)
Lemma elapse_due r t s :
  r ∈ sleepers s → r <= t → GetLevel (elapse t s) = defaultLogLevel.
Proof.
  intros Hr Ht. unfold elapse. rewrite GetLevel_resets.
  destruct (decide _) as [He|]; [|done].
  assert (r ∈ List.filter (fun r => r <=? t) (sleepers s)) as Hin.
  { apply list_elem_of_In, filter_In. split; [by apply list_elem_of_In|].
    by apply Z.leb_le. }
  rewrite He in Hin. by apply elem_of_nil in Hin.
Qed.

Lemma elapse_default t s :
  GetLevel s = defaultLogLevel → GetLevel (elapse t s) = defaultLogLevel.
Proof.
  intros Hs. unfold elapse. rewrite GetLevel_resets. by destruct (decide _).
Qed.

(** X1. [SetLevelTemporarily] with a level other than the default and a
    duration that is not negative sets the level, returns a nil error and
    the duration in force: 5 minutes for 0, at most 60 minutes, the
    duration asked for when it is between the two; once that duration has
    passed the level is the default level again. *)
Theorem temporary_level_expires (level d : Z) (s : LevelState)
    (Hlevel : level ≠ defaultLogLevel) (Hd : 0 <= d) :
  ∃ s' r,
    SetLevelTemporarily level d s = (s', (r, None)) ∧
    GetLevel s' = level ∧
    0 < r <= 60 * Minute ∧
    (d = 0 → r = 5 * Minute) ∧
    (0 < d <= 60 * Minute → r = d) ∧
    ∀ t, r <= t → GetLevel (elapse t s') = defaultLogLevel.
Proof.
  unfold SetLevelTemporarily.
  apply Z.eqb_neq in Hlevel. rewrite Hlevel.
  eexists _, _. split; [reflexivity|]. split; [done|].
  set (d1 := if d =? 0 then defaultTemporaryLogLevelChangeDuration else d).
  set (r := if d1 >? maxDurationForTemporaryLogLevelChange
            then maxDurationForTemporaryLogLevelChange else d1).
  assert (0 < r <= 60 * Minute ∧ (d = 0 → r = 5 * Minute)
          ∧ (0 < d <= 60 * Minute → r = d)) as (Hr & H0 & Hin).
  { subst r d1.
    unfold maxDurationForTemporaryLogLevelChange,
      defaultTemporaryLogLevelChangeDuration, Minute.
    destruct (Z.eqb_spec d 0) as [->|Hne];
      (destruct (_ >? _) eqn:Hgt; rewrite Z.gtb_ltb in Hgt;
       [apply Z.ltb_lt in Hgt|apply Z.ltb_ge in Hgt]); lia. }
  repeat split; try done; try lia.
  intros t Ht. apply (elapse_due r); [|done].
  cbn. apply elem_of_app. right. by apply list_elem_of_singleton.
Qed.

(** X2. Of two temporary changes the shorter one decides: after a first
    call for a level other than the default and a second call made right
    after it, the level is the second one, and it is the default level as
    soon as the duration in force of the first call has passed, however
    long the second call asked for. *)
Theorem first_temporary_change_ends_second (l1 d1 l2 d2 : Z) (s : LevelState)
    (Hl1 : l1 ≠ defaultLogLevel) :
  ∃ s1 r1 s2 r2,
    SetLevelTemporarily l1 d1 s = (s1, (r1, None)) ∧
    SetLevelTemporarily l2 d2 s1 = (s2, (r2, None)) ∧
    GetLevel s2 = l2 ∧
    ∀ t, r1 <= t → GetLevel (elapse t s2) = defaultLogLevel.
Proof.
  unfold SetLevelTemporarily.
  apply Z.eqb_neq in Hl1. rewrite Hl1.
  destruct (Z.eqb_spec l2 defaultLogLevel) as [->|Hl2].
  - eexists _, _, _, _. split; [reflexivity|].
    split; [reflexivity|]. split; [done|].
    intros t Ht. by apply elapse_default.
  - eexists _, _, _, _. split; [reflexivity|].
    split; [reflexivity|]. split; [done|].
    intros t Ht. eapply elapse_due; [|exact Ht].
    cbn. apply elem_of_app. left. apply elem_of_app. right.
    by apply list_elem_of_singleton.
Qed.

(** X3. A level set with [SetLevel] after a temporary change does not
    outlive it: when the duration in force of the temporary change has
    passed, the level is the default one. *)
Theorem temporary_change_undoes_SetLevel (l1 d1 l2 : Z) (s : LevelState)
    (Hl1 : l1 ≠ defaultLogLevel) :
  ∃ s1 r1,
    SetLevelTemporarily l1 d1 s = (s1, (r1, None)) ∧
    GetLevel (SetLevel l2 s1) = l2 ∧
    ∀ t, r1 <= t → GetLevel (elapse t (SetLevel l2 s1)) = defaultLogLevel.
Proof.
  unfold SetLevelTemporarily.
  apply Z.eqb_neq in Hl1. rewrite Hl1.
  eexists _, _. split; [reflexivity|]. split; [done|].
  intros t Ht. eapply elapse_due; [|exact Ht].
  cbn. apply elem_of_app. right. by apply list_elem_of_singleton.
Qed.

(** X4. [SetLevelTemporarily] with the default level returns the largest
    duration and a nil error, starts no goroutine, and the level is the
    default one then and after any lapse of time. *)
Theorem temporary_default_level_stays (d : Z) (s : LevelState) :
  ∃ s',
    SetLevelTemporarily defaultLogLevel d s = (s', (MaxInt64, None)) ∧
    sleepers s' = sleepers s ∧
    ∀ t, GetLevel (elapse t s') = defaultLogLevel.
Proof.
  eexists. split; [reflexivity|]. split; [done|].
  intros t. by apply elapse_default.
Qed.

(** ** The writer of the environment *)

Lemma NewFileWriter_config c σ w σ' :
  NewFileWriter c σ = Ok w σ' →
  config w = withDefaults c ∧
  logFileNameFullPath w =
    Path.Join [LogDirName (withDefaults c); LogFileName (withDefaults c)].
Proof.
  unfold NewFileWriter. unfold_m.
  destruct (initialize_returns
              (mkFileWriter None (withDefaults c) None
                 (Path.Join [LogDirName (withDefaults c);
                             LogFileName (withDefaults c)]) 0 []) σ)
    as (w1 & e & σ1 & -> & Hcfg & Hpath).
  destruct e; [done|]. by intros [= <- <-].
Qed.

Lemma withDefaults_fields c :
  LogDirName (withDefaults c) =
    (if String.eqb (LogDirName c) "" then "./log" else LogDirName c) ∧
  LogFileName (withDefaults c) =
    (if String.eqb (LogFileName c) "" then "log.log" else LogFileName c) ∧
  Compress (withDefaults c) = Compress c ∧
  MaxTimeTimeToKeep (withDefaults c) = MaxTimeTimeToKeep c ∧
  MaxLogFileSizeBytes (withDefaults c) =
    (if MaxLogFileSizeBytes c =? 0 then 1000000 else MaxLogFileSizeBytes c).
Proof.
  unfold withDefaults.
  destruct (MaxLogFileSizeBytes c =? 0) eqn:H0; cbn;
    destruct (LogDirName c =? "")%string; cbn;
    destruct (LogFileName c =? "")%string; cbn; by rewrite ?H0.
Qed.

Lemma GetLogDir_nonempty getenv : GetLogDir getenv ≠ "".
Proof.
  unfold GetLogDir. by destruct (String.eqb_spec (getenv LogDirEnvVar) "").
Qed.

Lemma wrap64_mul_l a b : wrap64 (wrap64 a * b) = wrap64 (a * b).
Proof.
  unfold wrap64. f_equal.
  pose proof (Z.div_mod (a + 2 ^ 63) (2 ^ 64) ltac:(done)) as Hq.
  replace (((a + 2 ^ 63) mod 2 ^ 64 - 2 ^ 63) * b + 2 ^ 63)
    with (a * b + 2 ^ 63 + (- ((a + 2 ^ 63) `div` 2 ^ 64) * b) * 2 ^ 64) by lia.
  apply Z_mod_plus_full.
Qed.

Lemma wrap64_high x :
  MaxInt64 < x <= MaxInt64 + 2 ^ 64 → wrap64 x = x - 2 ^ 64.
Proof.
  unfold wrap64, MaxInt64. intros H.
  replace (x + 2 ^ 63) with (x + 2 ^ 63 - 2 ^ 64 + 1 * 2 ^ 64) by lia.
  rewrite Z_mod_plus_full, Z.mod_small; lia.
Qed.

(** X5. The writer that [getLogFileWriter] returns compresses its
    archives and writes to the file ["test.log"] of the directory that
    TEST_LOG_DIR names, of ["./log"] when the variable is empty or not set;
    when no writer is returned the process was ended by the fatal log
    call. *)
Theorem env_writer_location (getenv : string → string) (σ : World) :
  let dir := if String.eqb (getenv LogDirEnvVar) "" then "./log"
             else getenv LogDirEnvVar in
  (∃ w σ',
     getLogFileWriter getenv σ = Ok w σ' ∧
     LogDirName (config w) = dir ∧
     LogFileName (config w) = "test.log" ∧
     Compress (config w) = true ∧
     logFileNameFullPath w = Path.Join [dir; "test.log"]) ∨
  (∃ msg σ', getLogFileWriter getenv σ = Fatal msg σ').
Proof.
  intros dir. unfold getLogFileWriter.
  destruct (NewFileWriter (logFileConfig getenv) σ) as [w σ'|msg σ'|msg σ'] eqn:H.
  - left. exists w, σ'. split; [done|].
    apply NewFileWriter_config in H as [Hc Hp]. rewrite Hp, Hc.
    destruct (withDefaults_fields (logFileConfig getenv))
      as (-> & -> & -> & _).
    change (LogDirName (logFileConfig getenv)) with (GetLogDir getenv).
    pose proof (GetLogDir_nonempty getenv) as Hne.
    apply String.eqb_neq in Hne. rewrite Hne.
    assert (GetLogDir getenv = dir) as ->; [|done].
    subst dir. unfold GetLogDir.
    by destruct (getenv LogDirEnvVar =? "")%string.
  - exfalso. revert H. unfold NewFileWriter. unfold_m.
    destruct (initialize_returns
                (mkFileWriter None (withDefaults (logFileConfig getenv)) None
                   (Path.Join [LogDirName (withDefaults (logFileConfig getenv));
                               LogFileName (withDefaults (logFileConfig getenv))])
                   0 []) σ) as (w1 & e & σ1 & -> & _).
    by destruct e.
  - right. eauto.
Qed.

(** X6. The rotation threshold of the writer of [getLogFileWriter]: when
    TEST_LOG_FILE_SIZE_MB is a decimal integer between 1 and 2^43 - 1 the
    threshold is that many times 1048576 bytes; when the variable is
    empty or not set, is not an integer, or is 0, the threshold is the
    default of 1000000 bytes. *)
Theorem env_writer_threshold (getenv : string → string) (σ σ' : World)
    (w : FileWriter) (Hw : getLogFileWriter getenv σ = Ok w σ') :
  (∀ n, Strconv.ParseInt (getenv LogFileSizeEnvVar) 64 = Some n →
        0 < n < 2 ^ 43 →
        MaxLogFileSizeBytes (config w) = n * 1048576) ∧
  (getenv LogFileSizeEnvVar = "" ∨
   Strconv.ParseInt (getenv LogFileSizeEnvVar) 64 = None ∨
   Strconv.ParseInt (getenv LogFileSizeEnvVar) 64 = Some 0 →
   MaxLogFileSizeBytes (config w) = 1000000).
Proof.
  apply NewFileWriter_config in Hw as [-> _].
  destruct (withDefaults_fields (logFileConfig getenv)) as (_ & _ & _ & _ & ->).
  unfold logFileConfig. cbn [MaxLogFileSizeBytes].
  rewrite wrap64_mul_l. split.
  - intros n Hn Hr.
    assert (getenv LogFileSizeEnvVar ≠ "") as Hne by (intros He; by rewrite He in Hn).
    apply String.eqb_neq in Hne. rewrite Hne, Hn. cbn [negb].
    rewrite wrap64_id by (unfold MinInt64, MaxInt64; lia).
    destruct (Z.eqb_spec (n * 1024 * 1024) 0); lia.
  - intros [He|[Hn|Hn]].
    + by rewrite He.
    + rewrite Hn. by destruct (negb _).
    + rewrite Hn. by destruct (negb _).
Qed.

(** X7. The retention of the writer of [getLogFileWriter]: when
    TEST_LOG_FILE_MAX_AGE_DAYS is a decimal integer of 32 bits between 0
    and 106751 the retention is that many days in nanoseconds; between
    106752 and 213503 the product overflows and the retention is negative;
    when the variable is empty or not set, or is not such an integer, the
    retention is 0. *)
Theorem env_writer_retention (getenv : string → string) (σ σ' : World)
    (w : FileWriter) (Hw : getLogFileWriter getenv σ = Ok w σ') :
  (∀ days, Strconv.ParseInt (getenv LogFileMaxAgeEnvVar) 32 = Some days →
           0 <= days <= 106751 →
           MaxTimeTimeToKeep (config w) = days * 24 * Hour) ∧
  (∀ days, Strconv.ParseInt (getenv LogFileMaxAgeEnvVar) 32 = Some days →
           106752 <= days <= 213503 →
           MaxTimeTimeToKeep (config w) < 0) ∧
  (getenv LogFileMaxAgeEnvVar = "" ∨
   Strconv.ParseInt (getenv LogFileMaxAgeEnvVar) 32 = None →
   MaxTimeTimeToKeep (config w) = 0).
Proof.
  apply NewFileWriter_config in Hw as [-> _].
  destruct (withDefaults_fields (logFileConfig getenv)) as (_ & _ & _ & -> & _).
  unfold logFileConfig. cbn [MaxTimeTimeToKeep].
  assert (∀ days, Strconv.ParseInt (getenv LogFileMaxAgeEnvVar) 32 = Some days →
                  negb (getenv LogFileMaxAgeEnvVar =? "")%string = true) as Hset.
  { intros days Hn. apply negb_true_iff, String.eqb_neq. intros He.
    by rewrite He in Hn. }
  repeat split.
  - intros days Hn Hr. rewrite (Hset _ Hn), Hn, wrap64_mul_l.
    rewrite wrap64_id; unfold Hour, Minute, MinInt64, MaxInt64; lia.
  - intros days Hn Hr. rewrite (Hset _ Hn), Hn, wrap64_mul_l.
    rewrite wrap64_high; unfold Hour, Minute, MaxInt64; lia.
  - intros [He|Hn].
    + by rewrite He.
    + rewrite Hn. by destruct (negb _).
Qed.

(** ** Writes that stay below the threshold *)

Lemma len_append a b : len (a +:+ b) = len a + len b.
Proof. unfold len. rewrite length_append. lia. Qed.

Lemma File_Write_ok name b σ :
  faults σ (SysWrite name) = None →
  File_Write (Some (mkOsFile name false)) b σ =
    Ok (len b, None)
       (set_files (alter (append_data b (nowNano σ)) name (files σ)) σ).
Proof. intros H. unfold File_Write. unfold_m. cbn. by rewrite H. Qed.

(** One write that does not take the counter above the threshold. *)
Lemma Write_below w msg σ f :
  closed w = None →
  logFile w = Some (mkOsFile (logFileNameFullPath w) false) →
  files σ !! logFileNameFullPath w = Some f →
  byteCounter w = len (data f) →
  faults σ (SysWrite (logFileNameFullPath w)) = None →
  byteCounter w + len msg <= MaxLogFileSizeBytes (config w) →
  MaxLogFileSizeBytes (config w) <= MaxInt64 →
  Write w msg σ =
    Ok (set_byteCounter (byteCounter w + len msg) w, (len msg, None))
       (set_files (<[logFileNameFullPath w :=
                       mkFile (data f +:+ msg) (nowNano σ)]> (files σ)) σ).
Proof.
  intros Hc Hh Hf Hb Hfl Hle Hmax.
  pose proof (len_nonneg (data f)). pose proof (len_nonneg msg).
  unfold Write. rewrite Hc, Hh. unfold_m.
  rewrite File_Write_ok by done. cbn.
  rewrite wrap64_id by (unfold MinInt64; lia).
  assert ((byteCounter w + len msg >? MaxLogFileSizeBytes (config w)) = false) as ->.
  { rewrite Z.gtb_ltb. apply Z.ltb_ge. lia. }
  do 2 f_equal. apply map_eq. intros q.
  destruct (decide (logFileNameFullPath w = q)) as [<-|Hne].
  - by rewrite lookup_alter_eq, lookup_insert_eq, Hf.
  - by rewrite lookup_alter_ne, lookup_insert_ne.
Qed.

(** X8. Writes whose cumulative size stays at or below the threshold, on
    a writer that is not closed and whose counter is the size of the open
    active file, while [File.Write] does not fail: every call reports the
    length of its payload and a nil error, the active file ends with the
    payloads in the order of the calls, the byte counter is its size, no
    other file changes and there is no rotation. *)
Theorem writes_append (msgs : list string) : ∀ (w : FileWriter) (σ : World) (f : File)
    (Hopen : closed w = None)
    (Hhandle : logFile w = Some (mkOsFile (logFileNameFullPath w) false))
    (Hfile : files σ !! logFileNameFullPath w = Some f)
    (Hcount : byteCounter w = len (data f))
    (Hwrite : faults σ (SysWrite (logFileNameFullPath w)) = None)
    (Hsum : byteCounter w + total msgs <= MaxLogFileSizeBytes (config w))
    (Hmax : MaxLogFileSizeBytes (config w) <= MaxInt64),
  ∃ w' σ',
    writes w msgs σ = Ok (w', map (fun msg => (len msg, None)) msgs) σ' ∧
    data <$> files σ' !! logFileNameFullPath w
      = Some (data f +:+ String.concat "" msgs) ∧
    byteCounter w' = len (data f) + total msgs ∧
    (∀ q, q ≠ logFileNameFullPath w → files σ' !! q = files σ !! q) ∧
    rotations σ' = rotations σ.
Proof.
  induction msgs as [|msg rest IH]; intros.
  - exists w, σ. cbn. rewrite Hfile. cbn. rewrite append_nil_r.
    repeat split; try done. lia.
  - change (total (msg :: rest)) with (len msg + total rest) in *.
    pose proof (total_nonneg rest) as Hrest.
    pose proof (Write_below w msg σ f Hopen Hhandle Hfile Hcount Hwrite
                  ltac:(lia) Hmax) as Hw.
    set (w1 := set_byteCounter (byteCounter w + len msg) w) in *.
    set (σ1 := set_files _ σ) in *.
    destruct (IH w1 σ1 (mkFile (data f +:+ msg) (nowNano σ)))
      as (w' & σ' & Hws & Hdata & Hcnt & Hframe & Hrot); try done.
    + subst σ1. cbn. by rewrite lookup_insert_eq.
    + subst w1. cbn. rewrite len_append. lia.
    + subst w1. cbn. lia.
    + change (logFileNameFullPath w1) with (logFileNameFullPath w) in *.
      change (byteCounter w1) with (byteCounter w + len msg) in *.
      exists w', σ'. cbn [writes]. unfold_m. rewrite Hw. cbn.
      unfold mbind, M_bind, bind, mret, M_ret, ret in Hws. rewrite Hws. cbn.
      split; [done|]. split.
      { rewrite Hdata. f_equal. cbn [data].
        rewrite append_assoc. f_equal.
        destruct rest as [|m2 rest]; [by rewrite append_nil_r|].
        cbn. destruct rest; by rewrite ?append_nil_l. }
      split; [cbn in Hcnt; rewrite len_append in Hcnt; lia|].
      split; [|done].
      intros q Hq. rewrite (Hframe q Hq). subst σ1. cbn.
      by rewrite lookup_insert_ne.
Qed.

(** ** A rotation without failure *)

Lemma archive_of_eq w t :
  well_named w →
  archiveNameAt (logFileNameFullPath w) t = archive_of w t ∧
  archive_of w t ≠ logFileNameFullPath w.
Proof.
  intros [Hn Hp]. unfold archive_of.
  rewrite <- (archiveNameAt_Join _ _ t Hn), <- Hp. split; [done|].
  rewrite Hp at 1 2. by apply archiveNameAt_neq.
Qed.

(** [rotate] on an open active file when no step fails. *)
Lemma rotate_ok w σ f :
  well_named w →
  logFile w = Some (mkOsFile (logFileNameFullPath w) false) →
  files σ !! logFileNameFullPath w = Some f →
  faults σ (SysClose (logFileNameFullPath w)) = None →
  faults σ (SysMkdirAll (LogDirName (config w))) = None →
  faults σ (SysRename (logFileNameFullPath w) (archive_of w (nowWall σ))) = None →
  faults σ (SysOpenFile (logFileNameFullPath w)) = None →
  rotate w σ =
    Ok (mkFileWriter (closed w) (config w)
          (Some (mkOsFile (logFileNameFullPath w) false))
          (logFileNameFullPath w) 0
          (if Compress (config w)
           then compressorWG w ++ [archive_of w (nowWall σ)]
           else compressorWG w)%list, None)
       (set_files
          (<[logFileNameFullPath w := mkFile "" (nowNano σ)]>
             (<[archive_of w (nowWall σ) := f]>
                (delete (logFileNameFullPath w) (files σ))))
          (count_rotation σ)).
Proof.
  intros Hwn Hh Hf Hcl Hmk Hrn Hop.
  destruct (archive_of_eq w (nowWall σ) Hwn) as [Ha Hne].
  unfold rotate, File_Close, MkdirAll. unfold_m. cbn.
  rewrite Hh. cbn. rewrite Hcl.
  change (faults (count_rotation σ)) with (faults σ). rewrite Hmk.
  pose proof (archive_eq
                (set_logFile (Some (mkOsFile (logFileNameFullPath w) true)) w)
                (logFileNameFullPath w) (count_rotation σ)) as He.
  cbv zeta in He. cbn in He. rewrite Ha, Hrn, Hf in He.
  cbn. rewrite He. clear He.
  unfold OpenFile. unfold_m.
  destruct (Compress (config w)); cbn; rewrite Hop;
    rewrite lookup_insert_ne, lookup_delete_eq by done; cbn; done.
Qed.

(** A write that takes the counter above the threshold, when nothing
    fails. *)
Lemma Write_over (w : FileWriter) (msg : string) (σ : World) (f : File) :
  closed w = None →
  well_named w →
  logFile w = Some (mkOsFile (logFileNameFullPath w) false) →
  files σ !! logFileNameFullPath w = Some f →
  byteCounter w = len (data f) →
  fault_free σ →
  byteCounter w + len msg > MaxLogFileSizeBytes (config w) →
  byteCounter w + len msg <= MaxInt64 →
  ∃ w' σ',
    Write w msg σ = Ok (w', (len msg, None)) σ' ∧
    files σ' !! archive_of w (nowWall σ)
      = Some (mkFile (data f +:+ msg) (nowNano σ)) ∧
    files σ' !! logFileNameFullPath w = Some (mkFile "" (nowNano σ)) ∧
    (∀ q, q ≠ logFileNameFullPath w → q ≠ archive_of w (nowWall σ) →
          files σ' !! q = files σ !! q) ∧
    logFile w' = Some (mkOsFile (logFileNameFullPath w) false) ∧
    byteCounter w' = 0 ∧
    compressorWG w' = (if Compress (config w)
                       then compressorWG w ++ [archive_of w (nowWall σ)]
                       else compressorWG w)%list ∧
    rotations σ' = S (rotations σ) ∧
    (closed w' = None ∧ config w' = config w ∧
     logFileNameFullPath w' = logFileNameFullPath w ∧ faults σ' = faults σ).
Proof.
  intros Hopen Hnamed Hhandle Hfile Hcount Hfaults Hover Hrange.
  pose proof (len_nonneg (data f)). pose proof (len_nonneg msg).
  destruct (archive_of_eq w (nowWall σ) Hnamed) as [_ Hne].
  unfold Write. rewrite Hopen, Hhandle. unfold_m.
  rewrite File_Write_ok by apply Hfaults. cbn.
  rewrite wrap64_id by (unfold MinInt64; lia).
  assert ((byteCounter w + len msg >? MaxLogFileSizeBytes (config w)) = true) as ->.
  { rewrite Z.gtb_ltb. apply Z.ltb_lt. lia. }
  set (w1 := set_byteCounter (byteCounter w + len msg) w).
  set (σ1 := set_files _ σ).
  rewrite (rotate_ok w1 σ1 (mkFile (data f +:+ msg) (nowNano σ)));
    try done; try apply Hfaults.
  - eexists _, _. split; [reflexivity|]. cbn.
    rewrite lookup_insert_ne, !lookup_insert_eq by done.
    repeat split; try done.
    intros q Hq Hqa.
    rewrite !lookup_insert_ne, lookup_delete_ne, lookup_alter_ne by done. done.
  - subst σ1. cbn. by rewrite lookup_alter_eq, Hfile.
Qed.

(** X9. A write that takes the counter above the threshold, on a writer
    in step with its open active file, with an ordinary file name, while
    no system call fails: the call reports the length of the payload and
    a nil error; the archive, named after the wall clock, holds the old
    content followed by the payload; the active file is a new, empty one,
    open, with a byte counter of 0; a compression of the archive is
    started exactly when [Compress] is set; there was one rotation and no
    other file changed. *)
Theorem write_rotates (w : FileWriter) (msg : string) (σ : World) (f : File)
    (Hopen : closed w = None)
    (Hnamed : well_named w)
    (Hhandle : logFile w = Some (mkOsFile (logFileNameFullPath w) false))
    (Hfile : files σ !! logFileNameFullPath w = Some f)
    (Hcount : byteCounter w = len (data f))
    (Hfaults : fault_free σ)
    (Hover : byteCounter w + len msg > MaxLogFileSizeBytes (config w))
    (Hrange : byteCounter w + len msg <= MaxInt64) :
  let path := logFileNameFullPath w in
  let arch := archive_of w (nowWall σ) in
  ∃ w' σ',
    Write w msg σ = Ok (w', (len msg, None)) σ' ∧
    files σ' !! arch = Some (mkFile (data f +:+ msg) (nowNano σ)) ∧
    files σ' !! path = Some (mkFile "" (nowNano σ)) ∧
    (∀ q, q ≠ path → q ≠ arch → files σ' !! q = files σ !! q) ∧
    logFile w' = Some (mkOsFile path false) ∧
    byteCounter w' = 0 ∧
    compressorWG w' = (if Compress (config w) then compressorWG w ++ [arch]
                       else compressorWG w)%list ∧
    rotations σ' = S (rotations σ).
Proof.
  intros path arch.
  destruct (Write_over w msg σ f) as (w' & σ' & H); try done.
  exists w', σ'. tauto.
Qed.

(** A write on a writer in step with its file, in a world without
    failures, leaves a writer in step with its file. *)
Lemma Write_keeps_step w msg σ :
  closed w = None → well_named w → tracks w σ → fault_free σ →
  byteCounter w + len msg <= MaxInt64 →
  MaxLogFileSizeBytes (config w) <= MaxInt64 →
  ∃ w' σ',
    Write w msg σ = Ok (w', (len msg, None)) σ' ∧
    closed w' = None ∧ well_named w' ∧ tracks w' σ' ∧ fault_free σ' ∧
    config w' = config w ∧
    (byteCounter w' = 0 ∨
     byteCounter w' = byteCounter w + len msg ∧
     byteCounter w' <= MaxLogFileSizeBytes (config w)).
Proof.
  intros Hopen Hnamed (Hh & f & Hf & Hb) Hff Hrange Hmax.
  destruct (Z_le_gt_dec (byteCounter w + len msg) (MaxLogFileSizeBytes (config w)))
    as [Hle|Hgt].
  - rewrite (Write_below w msg σ f) by (done || apply Hff).
    eexists _, _. split; [reflexivity|].
    split; [done|]. split; [done|]. split.
    { split; [done|]. exists (mkFile (data f +:+ msg) (nowNano σ)). cbn.
      rewrite lookup_insert_eq. split; [done|]. rewrite len_append. lia. }
    split; [done|]. split; [done|]. right. cbn. lia.
  - destruct (Write_over w msg σ f)
      as (w' & σ' & -> & _ & Hp & _ & Hh' & Hb' & _ & _ & Hc' & Hcfg & Hpath & Hfl);
      try done.
    exists w', σ'. split; [done|]. split; [done|].
    destruct Hnamed as [Hn Hpn].
    split; [split; by rewrite Hcfg, ?Hpath|].
    split.
    { split; [by rewrite Hpath|].
      exists (mkFile "" (nowNano σ)). rewrite Hpath. by split. }
    split; [intros s0; rewrite Hfl; apply Hff|].
    split; [done|]. by left.
Qed.

(** X10. In a world where no system call fails, a writer with an
    ordinary file name that is in step with its active file stays so
    through any sequence of writes: every call reports the length of its
    payload and a nil error, and afterwards the file is open under the
    active path, the byte counter is its size and is at most the
    threshold. *)
Theorem writes_keep_step (msgs : list string) : ∀ (w : FileWriter) (σ : World)
    (Hopen : closed w = None)
    (Hnamed : well_named w)
    (Hstep : tracks w σ)
    (Hfaults : fault_free σ)
    (Hmax : 0 <= MaxLogFileSizeBytes (config w))
    (Hcount : byteCounter w <= MaxLogFileSizeBytes (config w))
    (Hrange : Forall (fun msg => MaxLogFileSizeBytes (config w) + len msg
                                 <= MaxInt64) msgs),
  ∃ w' σ',
    writes w msgs σ = Ok (w', map (fun msg => (len msg, None)) msgs) σ' ∧
    closed w' = None ∧
    tracks w' σ' ∧
    byteCounter w' <= MaxLogFileSizeBytes (config w).
Proof.
  induction msgs as [|msg rest IH]; intros.
  - by exists w, σ.
  - inversion Hrange as [|? ? Hm Hr]; subst.
    pose proof (len_nonneg msg).
    destruct (Write_keeps_step w msg σ)
      as (w1 & σ1 & Hw & Hc1 & Hn1 & Ht1 & Hf1 & Hcfg & Hb1);
      try done; try lia.
    destruct (IH w1 σ1) as (w' & σ' & Hws & Hc' & Ht' & Hb');
      try done; rewrite ?Hcfg; try done; try lia.
    exists w', σ'. cbn [writes]. unfold_m. rewrite Hw. cbn.
    unfold mbind, M_bind, bind, mret, M_ret, ret in Hws. rewrite Hws. cbn.
    rewrite Hcfg in Hb'. done.
Qed.

(** ** Construction *)

Lemma OpenFile_ok_inv name σ f σ' :
  OpenFile name false σ = Ok (f, None) σ' →
  f = Some (mkOsFile name false) ∧ is_Some (files σ' !! name) ∧ same_env σ σ'.
Proof.
  unfold OpenFile. unfold_m.
  destruct (faults σ (SysOpenFile name)); [done|].
  destruct (files σ !! name) as [g|] eqn:Hg; cbn; intros [= <- <-].
  - rewrite Hg. eauto with fw.
  - cbn. rewrite lookup_insert_eq. eauto with fw.
Qed.

(** What [initialize] leaves when it returns a nil error. *)
Lemma initialize_ok_inv w σ w' σ' :
  initialize w σ = Ok (w', None) σ' →
  closed w' = closed w ∧ config w' = config w ∧
  logFileNameFullPath w' = logFileNameFullPath w ∧
  logFile w' = Some (mkOsFile (logFileNameFullPath w) false) ∧
  is_Some (files σ' !! logFileNameFullPath w).
Proof.
  unfold initialize, MkdirAll. unfold_m.
  destruct (faults σ (SysMkdirAll _)); [done|].
  destruct (cleanup_spec w σ) as (σ1 & -> & _).
  destruct (faults σ (SysReadDir _)); [done|]. cbn.
  set (w1 := set_compressorWG _ w).
  destruct (Stat_returns (logFileNameFullPath w) σ1) as ([info e] & ->).
  match goal with
  | |- context [match ?m σ1 with Ok _ _ => _ | Panic _ _ => _ | Fatal _ _ => _ end] =>
      assert (∃ w2 e2 σ2, m σ1 = Ok (w2, e2) σ2 ∧ closed w2 = closed w
                          ∧ config w2 = config w
                          ∧ logFileNameFullPath w2 = logFileNameFullPath w)
        as (w2 & e2 & σ2 & -> & Hc2 & Hcfg2 & Hp2)
  end.
  { destruct info as [info|], e as [e|]; try (by eexists _, _, _).
    destruct (_ >=? _); [|by eexists _, _, _].
    rewrite archive_eq. cbn.
    repeat (case_inner; cbn); by eexists _, _, _. }
  destruct e2; [done|]. rewrite Hp2.
  destruct (OpenFile (logFileNameFullPath w) false σ2) as [[f e3] σ3| |] eqn:Ho;
    [|done|done].
  destruct e3; [done|]. intros [= <- <-].
  apply OpenFile_ok_inv in Ho as (-> & Hs & _). cbn. by rewrite Hp2.
Qed.

(** X11. A writer that [NewFileWriter] returns is not closed, and holds
    the active file open: the file exists under the path of the writer,
    which is [path.Join] of the directory and file name of its
    configuration. *)
Theorem new_writer_is_open (c : FileWriterConfig) (σ σ' : World) (w : FileWriter)
    (Hnew : NewFileWriter c σ = Ok w σ') :
  closed w = None ∧
  logFile w = Some (mkOsFile (logFileNameFullPath w) false) ∧
  is_Some (files σ' !! logFileNameFullPath w) ∧
  logFileNameFullPath w =
    Path.Join [LogDirName (config w); LogFileName (config w)].
Proof.
  revert Hnew. unfold NewFileWriter. unfold_m.
  destruct (initialize _ σ) as [[w1 e] σ1| |] eqn:Hi; [|done|done].
  destruct e; [done|]. intros [= <- <-].
  apply initialize_ok_inv in Hi as (Hc & Hcfg & Hp & Hh & Hs).
  cbn in *. by rewrite Hp, Hcfg.
Qed.

(** X12. In a world where no system call fails, [NewFileWriter] with an
    ordinary file name returns a writer that is not closed and is in step
    with its active file: the file is open under the path of the writer
    and the byte counter is its size, which is 0 or below the threshold. *)
Theorem new_writer_in_step (c : FileWriterConfig) (σ : World)
    (Hfaults : fault_free σ)
    (Hname : plain (LogFileName (withDefaults c)) = true) :
  ∃ w σ',
    NewFileWriter c σ = Ok w σ' ∧
    closed w = None ∧ well_named w ∧ tracks w σ' ∧ fault_free σ' ∧
    config w = withDefaults c ∧
    (byteCounter w = 0 ∨ byteCounter w < MaxLogFileSizeBytes (config w)).
Proof.
  set (c' := withDefaults c) in *.
  set (path := Path.Join [LogDirName c'; LogFileName c']).
  set (w0 := mkFileWriter None c' None path 0 []).
  assert (well_named w0) as Hwn by (by split).
  unfold NewFileWriter. fold c' path w0. unfold initialize, MkdirAll. unfold_m.
  rewrite Hfaults.
  destruct (cleanup_spec w0 σ) as (σ1 & -> & Hs).
  rewrite Hfaults. cbn.
  set (w1 := set_compressorWG _ w0).
  assert (fault_free σ1) as Hff1.
  { intros s0. destruct Hs as (_ & _ & -> & _). apply Hfaults. }
  unfold Stat. unfold_m. rewrite Hff1.
  destruct (files σ1 !! path) as [f|] eqn:Hf; cbn.
  - destruct (len (data f) >=? MaxLogFileSizeBytes c') eqn:Hsz.
    + rewrite archive_eq. cbn. fold path.
      destruct (archive_of_eq w0 (nowWall σ1) Hwn) as [Ha Hne].
      cbn in Ha, Hne. fold path in Ha, Hne.
      rewrite Hff1, Hf. cbn.
      assert (logFileNameFullPath
                (if Compress c'
                 then go_compress (archiveNameAt path (nowWall σ1)) w1
                 else w1) = path) as -> by (by destruct (Compress c')).
      unfold OpenFile. unfold_m. cbn. rewrite Hff1.
      rewrite Ha, lookup_insert_ne, lookup_delete_eq by done. cbn.
      eexists _, _. split; [reflexivity|].
      split; [by destruct (Compress c')|].
      split; [destruct (Compress c'); exact Hwn|].
      split.
      { destruct (Compress c'); (split; [done|]);
          exists (mkFile "" (nowNano σ1)); cbn; fold path;
          by rewrite lookup_insert_eq. }
      split; [exact Hff1|].
      split; [by destruct (Compress c')|].
      left. by destruct (Compress c').
    + cbn. unfold OpenFile. unfold_m. cbn. fold path. rewrite Hff1, Hf. cbn.
      eexists _, _. split; [reflexivity|].
      split; [done|]. split; [exact Hwn|].
      split; [split; [done|by exists f]|].
      split; [exact Hff1|]. split; [done|].
      right. cbn. rewrite Z.geb_leb in Hsz. apply Z.leb_gt in Hsz. lia.
  - unfold OpenFile. unfold_m. cbn. fold path. rewrite Hff1, Hf. cbn.
    eexists _, _. split; [reflexivity|].
    split; [done|]. split; [exact Hwn|].
    split.
    { split; [done|]. exists (mkFile "" (nowNano σ1)). cbn. fold path.
      by rewrite lookup_insert_eq. }
    split; [exact Hff1|]. split; [done|]. by left.
Qed.

(** ** After a rotation that failed *)

Lemma wrap64_range x : MinInt64 <= wrap64 x <= MaxInt64.
Proof.
  unfold wrap64, MinInt64, MaxInt64.
  pose proof (Z.mod_pos_bound (x + 2 ^ 63) (2 ^ 64) eq_refl). lia.
Qed.

(** A write on a writer whose file is nil and whose counter is above the
    threshold panics in [rotate]. *)
Lemma Write_nil_file_panics w msg σ :
  closed w = None → logFile w = None →
  MinInt64 <= byteCounter w <= MaxInt64 →
  byteCounter w > MaxLogFileSizeBytes (config w) →
  Write w msg σ = Panic "logging inconsistency: logFile was nil" (count_rotation σ).
Proof.
  intros Hc Hf Hr Hgt. unfold Write. rewrite Hc, Hf. unfold_m. cbn.
  rewrite Z.add_0_r, wrap64_id by done.
  assert ((byteCounter w >? MaxLogFileSizeBytes (config w)) = true) as ->.
  { rewrite Z.gtb_ltb. apply Z.ltb_lt. lia. }
  unfold rotate. unfold_m. cbn. by rewrite Hf.
Qed.

(** A write on a writer whose file is closed and whose counter is above
    the threshold writes nothing and returns [os.ErrClosed]. *)
Lemma Write_closed_file_fails w msg σ h :
  closed w = None → logFile w = Some h → fclosed h = true →
  MinInt64 <= byteCounter w <= MaxInt64 →
  byteCounter w > MaxLogFileSizeBytes (config w) →
  Write w msg σ = Ok (w, (0, Some ErrClosed)) (count_rotation σ).
Proof.
  intros Hc Hf Hh Hr Hgt. unfold Write. rewrite Hc, Hf. unfold_m. cbn.
  rewrite Hh. cbn.
  rewrite Z.add_0_r, wrap64_id by done.
  assert ((byteCounter w >? MaxLogFileSizeBytes (config w)) = true) as ->.
  { rewrite Z.gtb_ltb. apply Z.ltb_lt. lia. }
  unfold rotate, File_Close. unfold_m. cbn. rewrite Hf. cbn. rewrite Hh. cbn.
  destruct w, h; cbn in *; by subst.
Qed.

Lemma archive_keeps w fn σ :
  ∃ w' e σ',
    archive w fn σ = Ok (w', e) σ' ∧ same_cfg w w' ∧ same_env σ σ' ∧
    closed w' = closed w ∧ byteCounter w' = byteCounter w ∧
    logFile w' = logFile w.
Proof.
  rewrite archive_eq. cbn.
  repeat (case_inner; cbn);
    (eexists _, _, _; split; [reflexivity|];
     split; [by split|]; split; [auto with fw|done]).
Qed.

(** [rotate] when the reopening fails: the writer is left without file
    and the counter is not reset. *)
Lemma rotate_reopen_fails w h σ e :
  logFile w = Some h → fclosed h = false →
  faults σ (SysClose (fname h)) = None →
  faults σ (SysMkdirAll (LogDirName (config w))) = None →
  faults σ (SysOpenFile (logFileNameFullPath w)) = Some e →
  ∃ w' σ',
    rotate w σ = Ok (w', Some e) σ' ∧
    closed w' = closed w ∧ logFile w' = None ∧ config w' = config w ∧
    byteCounter w' = byteCounter w.
Proof.
  intros Hf Hh Hcl Hmk Hop.
  unfold rotate, File_Close, MkdirAll. unfold_m. cbn.
  rewrite Hf, Hh. cbn. rewrite Hcl.
  change (faults (count_rotation σ)) with (faults σ). rewrite Hmk.
  destruct (archive_keeps (set_logFile (Some (mkOsFile (fname h) true)) w)
              (logFileNameFullPath w) (count_rotation σ))
    as (w1 & e1 & σ1 & H1 & [Hcfg Hp] & (_ & _ & Hfl & _) & Hc1 & Hb1 & _).
  cbn in H1, Hp, Hcfg, Hc1, Hb1. rewrite H1. cbn.
  unfold OpenFile. unfold_m. cbn. rewrite Hp, Hfl. cbn. rewrite Hop. cbn.
  eexists _, _. split; [reflexivity|]. by cbn.
Qed.

(** [rotate] when [MkdirAll] fails: the file stays closed. *)
Lemma rotate_mkdir_fails w h σ e :
  logFile w = Some h → fclosed h = false →
  faults σ (SysClose (fname h)) = None →
  faults σ (SysMkdirAll (LogDirName (config w))) = Some e →
  rotate w σ =
    Ok (set_logFile (Some (mkOsFile (fname h) true)) w, Some e) (count_rotation σ).
Proof.
  intros Hf Hh Hcl Hmk.
  unfold rotate, File_Close, MkdirAll. unfold_m. cbn.
  rewrite Hf, Hh. cbn. rewrite Hcl.
  change (faults (count_rotation σ)) with (faults σ). by rewrite Hmk.
Qed.

(** The beginning of a write that goes above the threshold. *)
Lemma Write_then_rotate w msg σ h :
  closed w = None → logFile w = Some h → fclosed h = false →
  faults σ (SysWrite (fname h)) = None →
  MinInt64 <= byteCounter w →
  byteCounter w + len msg > MaxLogFileSizeBytes (config w) →
  byteCounter w + len msg <= MaxInt64 →
  Write w msg σ =
    ('(w', _) ← rotate (set_byteCounter (byteCounter w + len msg) w);
     mret (w', (len msg, None)))
      (set_files (alter (append_data msg (nowNano σ)) (fname h) (files σ)) σ).
Proof.
  intros Hopen Hhandle Hlive Hwrite Hlow Hover Hrange.
  pose proof (len_nonneg msg).
  unfold Write. rewrite Hopen, Hhandle. unfold_m.
  destruct h as [name cl]. cbn in Hlive, Hwrite. subst cl.
  rewrite File_Write_ok by done. cbn.
  rewrite wrap64_id by lia.
  assert ((byteCounter w + len msg >? MaxLogFileSizeBytes (config w)) = true) as ->.
  { rewrite Z.gtb_ltb. apply Z.ltb_lt. lia. }
  done.
Qed.

(** X13. When the reopening of the active file fails in a rotation, the
    write that caused the rotation still reports its bytes and a nil
    error, the writer is left without a file, and every later write
    panics with "logging inconsistency: logFile was nil". *)
Theorem write_panics_after_failed_reopen (w : FileWriter) (msg : string)
    (σ : World) (h : OsFile) (e : error)
    (Hopen : closed w = None)
    (Hhandle : logFile w = Some h)
    (Hlive : fclosed h = false)
    (Hwrite : faults σ (SysWrite (fname h)) = None)
    (Hclose : faults σ (SysClose (fname h)) = None)
    (Hmkdir : faults σ (SysMkdirAll (LogDirName (config w))) = None)
    (Hreopen : faults σ (SysOpenFile (logFileNameFullPath w)) = Some e)
    (Hlow : MinInt64 <= byteCounter w)
    (Hover : byteCounter w + len msg > MaxLogFileSizeBytes (config w))
    (Hrange : byteCounter w + len msg <= MaxInt64) :
  ∃ w1 σ1,
    Write w msg σ = Ok (w1, (len msg, None)) σ1 ∧
    logFile w1 = None ∧
    ∀ msg2 σ2,
      Write w1 msg2 σ2 =
        Panic "logging inconsistency: logFile was nil" (count_rotation σ2).
Proof.
  pose proof (len_nonneg msg).
  rewrite (Write_then_rotate w msg σ h) by done. unfold_m.
  set (σ0 := set_files _ σ).
  destruct (rotate_reopen_fails (set_byteCounter (byteCounter w + len msg) w)
              h σ0 e) as (w1 & σ1 & -> & Hc1 & Hf1 & Hcfg1 & Hb1); try done.
  cbn in Hc1, Hcfg1, Hb1.
  exists w1, σ1. split; [done|]. split; [done|].
  intros msg2 σ2.
  apply Write_nil_file_panics; rewrite ?Hcfg1, ?Hb1; try done; try lia.
  by rewrite Hc1.
Qed.

(** X14. When [MkdirAll] fails in a rotation, the write that caused the
    rotation still reports its bytes and a nil error; the file of the
    writer stays closed, and every later write appends nothing, returns 0
    and [os.ErrClosed], and leaves the writer as it is. *)
Theorem write_fails_after_failed_mkdir (w : FileWriter) (msg : string)
    (σ : World) (h : OsFile) (e : error)
    (Hopen : closed w = None)
    (Hhandle : logFile w = Some h)
    (Hlive : fclosed h = false)
    (Hwrite : faults σ (SysWrite (fname h)) = None)
    (Hclose : faults σ (SysClose (fname h)) = None)
    (Hmkdir : faults σ (SysMkdirAll (LogDirName (config w))) = Some e)
    (Hlow : MinInt64 <= byteCounter w)
    (Hover : byteCounter w + len msg > MaxLogFileSizeBytes (config w))
    (Hrange : byteCounter w + len msg <= MaxInt64) :
  ∃ w1 σ1,
    Write w msg σ = Ok (w1, (len msg, None)) σ1 ∧
    logFile w1 = Some (mkOsFile (fname h) true) ∧
    ∀ msg2 σ2,
      Write w1 msg2 σ2 = Ok (w1, (0, Some ErrClosed)) (count_rotation σ2) ∧
      files (count_rotation σ2) = files σ2.
Proof.
  pose proof (len_nonneg msg).
  rewrite (Write_then_rotate w msg σ h) by done. unfold_m.
  rewrite (rotate_mkdir_fails _ h _ e) by done.
  eexists _, _. split; [reflexivity|]. split; [done|].
  intros msg2 σ2. split; [|done].
  eapply Write_closed_file_fails; cbn; try done; lia.
Qed.

(** ** Compression *)

(** X15. A run of [compress] in which no system call fails, on a file
    that exists: afterwards the file is gone, its gzip stream is under its
    name followed by [".gz"], nothing is under the temporary name, and no
    other file has changed. *)
Theorem compress_replaces (w : FileWriter) (fn : string) (σ : World) (f : File)
    (Hfile : files σ !! fn = Some f)
    (Hfaults : fault_free σ) :
  ∃ σ',
    compress w fn σ = Ok (Done fn w) σ' ∧
    files σ' =
      <[fn +:+ ".gz" := mkFile (gzip σ (data f)) (nowNano σ)]>
        (delete (fn +:+ ".gz.processing") (delete fn (files σ))).
Proof.
  assert (tempName fn = fn +:+ ".gz.processing") as Htmp
    by (unfold tempName, compressedName; by rewrite append_assoc).
  assert (compressedName fn = fn +:+ ".gz") as Hgz by done.
  rewrite <- Htmp, <- Hgz.
  destruct (compressed_names_distinct fn) as (Hg & Ht & Htg).
  unfold compress, Open, OpenFile, Copy, Rename, Remove. unfold_m.
  fold (compressedName fn). fold (tempName fn).
  cbn. rewrite !Hfaults, Hfile. cbn.
  destruct (files σ !! tempName fn) as [old|] eqn:Hold; cbn;
    repeat (first [rewrite Hfaults | rewrite Hfile
                  | rewrite lookup_insert_eq | rewrite lookup_alter_eq
                  | rewrite lookup_insert_ne by done
                  | rewrite lookup_alter_ne by done
                  | rewrite lookup_delete_ne by done]; cbn);
    (eexists; split; [reflexivity|]); cbn;
    apply map_eq; intros q;
    destruct (decide (q = fn)) as [->|Hq1];
    [rewrite lookup_delete_eq, lookup_insert_ne, lookup_delete_ne,
       lookup_delete_eq by done; done| |
     rewrite lookup_delete_eq, lookup_insert_ne, lookup_delete_ne,
       lookup_delete_eq by done; done|];
    rewrite lookup_delete_ne by done;
    (destruct (decide (q = compressedName fn)) as [->|Hq2];
     [by rewrite !lookup_insert_eq|]);
    rewrite !lookup_insert_ne by done;
    (destruct (decide (q = tempName fn)) as [->|Hq3];
     [by rewrite !lookup_delete_eq|]);
    rewrite !lookup_delete_ne, ?lookup_alter_ne, ?lookup_insert_ne by done;
    done.
Qed.

(** [compress] returns, keeps clock and failures, and touches three
    names at most. *)
Lemma compress_frame (w : FileWriter) (fn : string) (σ : World) :
  ∃ σ',
    compress w fn σ = Ok (Done fn w) σ' ∧ same_env σ σ' ∧
    (∀ q, q ≠ fn → q ≠ fn +:+ ".gz" → q ≠ fn +:+ ".gz.processing" →
          files σ' !! q = files σ !! q) ∧
    (files σ !! fn = None → σ' = σ).
Proof.
  assert (tempName fn = fn +:+ ".gz.processing") as Htmp
    by (unfold tempName, compressedName; by rewrite append_assoc).
  assert (compressedName fn = fn +:+ ".gz") as Hgz by done.
  rewrite <- Htmp, <- Hgz.
  unfold compress, Open, OpenFile, Copy, Rename, Remove. unfold_m.
  fold (compressedName fn). fold (tempName fn). cbn.
  repeat (case_inner; cbn);
    (eexists; split; [reflexivity|]; split; [by repeat split|]; split;
     [intros q Hq1 Hq2 Hq3; cbn;
      repeat (first [rewrite lookup_delete_ne by done
                    |rewrite lookup_insert_ne by done
                    |rewrite lookup_alter_ne by done]);
      done
     |intros Hn; congruence]).
Qed.

(** X16. Whatever fails, [compress] returns, leaves every file other
    than its input, the [".gz"] file and the [".gz.processing"] file as it
    was, and changes nothing at all when the input does not exist. *)
Theorem compress_touches_three_names (w : FileWriter) (fn : string) (σ : World) :
  ∃ σ',
    compress w fn σ = Ok (Done fn w) σ' ∧
    (∀ q, q ≠ fn → q ≠ fn +:+ ".gz" → q ≠ fn +:+ ".gz.processing" →
          files σ' !! q = files σ !! q) ∧
    (files σ !! fn = None → σ' = σ).
Proof.
  destruct (compress_frame w fn σ) as (σ' & H & _ & Hq & Hn). by exists σ'.
Qed.

(** ** The sweep and the files *)

Lemma Clean_eq t :
  Path.Clean t =
    if String.eqb (Path.render (Path.rooted t) (dir_elems t)) "" then "."
    else Path.render (Path.rooted t) (dir_elems t).
Proof.
  unfold Path.Clean, dir_elems. by destruct (String.eqb_spec t "") as [->|].
Qed.

Lemma Clean_render root (E : list string) :
  good root (rev E) → Path.render root E ≠ "" →
  Path.Clean (Path.render root E) = Path.render root E.
Proof.
  intros Hg Hne. rewrite Clean_eq.
  rewrite rooted_render by (by eapply good_elems_rev).
  rewrite dir_elems_render by done.
  apply String.eqb_neq in Hne. by rewrite Hne.
Qed.

Lemma Clean_idem t : Path.Clean (Path.Clean t) = Path.Clean t.
Proof.
  rewrite (Clean_eq t).
  destruct (String.eqb_spec (Path.render (Path.rooted t) (dir_elems t)) "")
    as [He|Hne]; [done|].
  apply Clean_render; [apply good_dir_elems|done].
Qed.

(** The directory of [d/x] is [d], cleaned. *)
Lemma Dir_Join d x : plain x = true → Path.Dir (Path.Join [d; x]) = Path.Clean d.
Proof.
  intros Hx.
  assert (Path.Dir (Path.Join [d; x]) = Path.Clean (Path.Dir (Path.Join [d; x])))
    as -> by (unfold Path.Dir; by rewrite Clean_idem).
  rewrite (Clean_eq (Path.Dir _)), (Clean_eq d), (Join_plain d x Hx).
  by destruct (Dir_render (Path.rooted d) (dir_elems d) x (good_dir_elems d) Hx)
    as [-> ->].
Qed.

(** Two directories with the same cleaned name hold the same files. *)
Lemma Join_Clean_eq d d' x :
  plain x = true → Path.Clean d = Path.Clean d' →
  Path.Join [d; x] = Path.Join [d'; x].
Proof.
  intros Hx Hc.
  rewrite <- (Join_Dir_Join d x x Hx Hx), <- (Join_Dir_Join d' x x Hx Hx).
  by rewrite !Dir_Join, Hc.
Qed.

Lemma swept_env c σ σ' ent : same_env σ σ' → swept c σ' ent = swept c σ ent.
Proof.
  intros (Hn & _ & Hf & _). unfold swept, expired. by rewrite Hn, Hf.
Qed.

Lemma removed_env c σ σ' ents q :
  same_env σ σ' → removed c σ' ents q = removed c σ ents q.
Proof.
  intros H. unfold removed. induction ents as [|e r IH]; [done|].
  cbn. by rewrite IH, (swept_env _ _ _ _ H).
Qed.

Lemma removed_cons c σ ent rest q :
  removed c σ (ent :: rest) q =
    (swept c σ ent && String.eqb (Path.Join [LogDirName c; ent.1]) q)
    || removed c σ rest q.
Proof. reflexivity. Qed.

(** One turn of the loop of the sweep, as far as the files go. *)
Lemma cleanup_step ent rest w σ :
  ∃ w1 σ1,
    cleanup_loop w (ent :: rest) σ = cleanup_loop w1 rest σ1 ∧
    config w1 = config w ∧ same_env σ σ1 ∧
    ∀ q, files σ1 !! q =
           if swept (config w) σ ent
              && String.eqb (Path.Join [LogDirName (config w); ent.1]) q
           then None else files σ !! q.
Proof.
  cbn [cleanup_loop]. unfold Info, Since, Remove. unfold_m.
  unfold swept, expired.
  destruct (faults σ (SysLstat _)) as [e|] eqn:Hl; cbn.
  { exists w, σ. auto with fw. }
  assert (∀ b, (match faults σ (SysRemove (Path.Join [LogDirName (config w); ent.1]))
                with Some _ => false | None => false end && b) = false) as Hff
    by (intros b;
        by destruct (faults σ (SysRemove (Path.Join [LogDirName (config w); ent.1])))).
  assert (∀ w1, config w1 = config w →
            ∃ w2 σ1, cleanup_loop w1 rest σ = cleanup_loop w2 rest σ1 ∧
              config w2 = config w ∧ same_env σ σ1 ∧
              ∀ q, files σ1 !! q = files σ !! q) as Hskip.
  { intros w1 Hc. exists w1, σ. auto with fw. }
  destruct (MaxTimeTimeToKeep (config w) >? 0) eqn:Hk; cbn.
  - destruct (_ >? MaxTimeTimeToKeep (config w)) eqn:Ha; cbn.
    + destruct (faults σ (SysRemove _)) as [e|] eqn:Hr; cbn.
      { exists w, σ. auto with fw. }
      destruct (files σ !! Path.Join [LogDirName (config w); ent.1])
        as [g|] eqn:Hg; cbn.
      * eexists w, _. split; [reflexivity|]. split; [done|].
        split; [apply same_env_set_files|]. intros q. cbn.
        destruct (String.eqb_spec (Path.Join [LogDirName (config w); ent.1]) q)
          as [<-|Hne].
        -- by rewrite lookup_delete_eq.
        -- by rewrite lookup_delete_ne.
      * exists w, σ. split; [done|]. split; [done|].
        split; [apply same_env_refl|]. intros q.
        destruct (String.eqb_spec (Path.Join [LogDirName (config w); ent.1]) q)
          as [<-|Hne]; done.
    + setoid_rewrite Hff.
      destruct (HasSuffix ent.1 "log" && _); by apply Hskip.
  - setoid_rewrite Hff.
    destruct (HasSuffix ent.1 "log" && _); by apply Hskip.
Qed.

(** The files after the loop of the sweep: those of before, less the
    entries that the sweep removes. *)
Lemma cleanup_loop_files (ents : list (string * File)) : ∀ w σ,
  ∃ w' σ',
    cleanup_loop w ents σ = Ok w' σ' ∧ same_env σ σ' ∧
    ∀ q, files σ' !! q =
           if removed (config w) σ ents q then None else files σ !! q.
Proof.
  induction ents as [|ent rest IH]; intros w σ.
  - exists w, σ. split; [done|]. split; [apply same_env_refl|done].
  - destruct (cleanup_step ent rest w σ) as (w1 & σ1 & -> & Hc & Hs & Hq1).
    destruct (IH w1 σ1) as (w' & σ' & -> & Hs' & Hq').
    exists w', σ'. split; [done|]. split; [by eapply same_env_trans|].
    intros q. rewrite Hq', Hq1, removed_cons, Hc.
    rewrite (removed_env _ _ _ _ _ Hs).
    destruct (removed (config w) σ rest q); [by rewrite orb_true_r|].
    by rewrite orb_false_r.
Qed.

Lemma elem_of_entries dir (fs : gmap string File) x f :
  (x, f) ∈ entries dir fs ↔
  ∃ p, fs !! p = Some f ∧ Path.Dir p = Path.Clean dir ∧ Path.Base p = x.
Proof.
  unfold entries. rewrite merge_sort_Permutation, list_elem_of_omap. split.
  - intros ([p g] & Hin & Hsome). apply elem_of_map_to_list in Hin.
    cbn in Hsome. destruct (String.eqb_spec (Path.Dir p) (Path.Clean dir)); [|done].
    injection Hsome as <- <-. by exists p.
  - intros (p & Hp & Hd & Hb). exists (p, f). split.
    + by apply elem_of_map_to_list.
    + cbn. apply String.eqb_eq in Hd. by rewrite Hd, Hb.
Qed.

Lemma removed_true c σ (ents : list (string * File)) q :
  removed c σ ents q = true ↔
  ∃ ent, ent ∈ ents ∧ swept c σ ent = true ∧ Path.Join [LogDirName c; ent.1] = q.
Proof.
  unfold removed. rewrite existsb_exists. split.
  - intros (ent & Hin & [Hs He]%andb_prop). exists ent.
    split; [by apply list_elem_of_In|]. split; [done|]. by apply String.eqb_eq.
  - intros (ent & Hin & Hs & He). exists ent.
    split; [by apply list_elem_of_In|]. rewrite Hs. by apply String.eqb_eq.
Qed.

(** The files after [cleanup]. *)
Lemma cleanup_files w σ :
  ∃ w' e σ',
    cleanup w σ = Ok (w', e) σ' ∧
    match faults σ (SysReadDir (LogDirName (config w))) with
    | Some e' => e = Some e' ∧ σ' = σ
    | None =>
        e = None ∧
        ∀ q, files σ' !! q =
               if removed (config w) σ
                    (entries (LogDirName (config w)) (files σ)) q
               then None else files σ !! q
    end.
Proof.
  unfold cleanup, ReadDir. unfold_m.
  destruct (faults σ (SysReadDir _)) as [e|] eqn:Hr; cbn.
  - by exists w, (Some e), σ.
  - destruct (cleanup_loop_files (entries (LogDirName (config w)) (files σ)) w σ)
      as (w' & σ' & -> & _ & Hq).
    by exists w', None, σ'.
Qed.

Lemma expired_inv c σ ent :
  expired c σ ent = true →
  MaxTimeTimeToKeep c > 0 ∧ nowNano σ - modTime ent.2 > MaxTimeTimeToKeep c.
Proof.
  unfold expired. intros [Hk Ha]%andb_prop.
  rewrite Z.gtb_ltb in Hk, Ha. apply Z.ltb_lt in Hk, Ha.
  unfold MinInt64, MaxInt64 in *. lia.
Qed.

Lemma swept_inv c σ ent :
  swept c σ ent = true → expired c σ ent = true.
Proof.
  unfold swept.
  destruct (faults σ (SysLstat _)); [done|]. by destruct (faults σ (SysRemove _)).
Qed.

(** X17. With a retention that is 0 or negative the sweep deletes
    nothing: [cleanup] returns and every file is as it was. *)
Theorem sweep_without_retention (w : FileWriter) (σ : World)
    (Hkeep : MaxTimeTimeToKeep (config w) <= 0) :
  ∃ w' e σ', cleanup w σ = Ok (w', e) σ' ∧ files σ' = files σ.
Proof.
  destruct (cleanup_files w σ) as (w' & e & σ' & Hc & H).
  exists w', e, σ'. split; [done|].
  destruct (faults σ (SysReadDir _)); [by destruct H as [_ ->]|].
  destruct H as [_ Hq]. apply map_eq. intros q. rewrite Hq.
  destruct (removed _ _ _ _) eqn:Hr; [|done].
  apply removed_true in Hr as (ent & _ & Hs & _).
  apply swept_inv, expired_inv in Hs. lia.
Qed.

(** X18. A file of the log directory, under an ordinary name, that is
    older than a positive retention is gone after the sweep, when reading
    the directory, the [Info] of the entry and its removal do not fail. *)
Theorem sweep_deletes_old_file (w : FileWriter) (σ : World) (x : string) (f : File)
    (Hname : plain x = true)
    (Hfile : files σ !! Path.Join [LogDirName (config w); x] = Some f)
    (Hkeep : 0 < MaxTimeTimeToKeep (config w) < MaxInt64)
    (Hold : nowNano σ - modTime f > MaxTimeTimeToKeep (config w))
    (Hread : faults σ (SysReadDir (LogDirName (config w))) = None)
    (Hinfo : faults σ (SysLstat (Path.Join [LogDirName (config w); x])) = None)
    (Hremove : faults σ (SysRemove (Path.Join [LogDirName (config w); x])) = None) :
  ∃ w' σ',
    cleanup w σ = Ok (w', None) σ' ∧
    files σ' !! Path.Join [LogDirName (config w); x] = None.
Proof.
  destruct (cleanup_files w σ) as (w' & e & σ' & Hc & H).
  rewrite Hread in H. destruct H as [-> Hq].
  exists w', σ'. split; [done|]. rewrite Hq.
  assert (removed (config w) σ (entries (LogDirName (config w)) (files σ))
            (Path.Join [LogDirName (config w); x]) = true) as ->; [|done].
  apply removed_true. exists (x, f). split; [|split; [|done]].
  - apply elem_of_entries. exists (Path.Join [LogDirName (config w); x]).
    split; [done|]. split; [by apply Dir_Join|by apply Base_Join].
  - unfold swept. cbn. rewrite Hinfo, Hremove. unfold expired. cbn.
    apply andb_true_intro. rewrite !Z.gtb_ltb. split; apply Z.ltb_lt;
      unfold MinInt64, MaxInt64 in *; lia.
Qed.

(** X19. In a file system whose paths are made of a directory and an
    ordinary file name, a file that is gone after the sweep was in the log
    directory and older than the retention, which is positive: the sweep
    deletes no other file. *)
Theorem sweep_deletes_only_old_files (w w' : FileWriter) (σ σ' : World)
    (e : option error) (q : string) (g : File)
    (Hkeys : clean_keys (files σ))
    (Hsweep : cleanup w σ = Ok (w', e) σ')
    (Hbefore : files σ !! q = Some g)
    (Hafter : files σ' !! q = None) :
  Path.Dir q = Path.Clean (LogDirName (config w)) ∧
  MaxTimeTimeToKeep (config w) > 0 ∧
  nowNano σ - modTime g > MaxTimeTimeToKeep (config w).
Proof.
  destruct (cleanup_files w σ) as (w1 & e1 & σ1 & Hc & H).
  rewrite Hsweep in Hc. injection Hc as <- <- <-.
  destruct (faults σ (SysReadDir _)).
  { destruct H as [_ ->]. by rewrite Hbefore in Hafter. }
  destruct H as [_ Hq]. rewrite Hq in Hafter.
  destruct (removed _ _ _ _) eqn:Hr; [|by rewrite Hbefore in Hafter].
  apply removed_true in Hr as ([x f] & Hin & Hs & Hj). cbn in Hj.
  apply elem_of_entries in Hin as (p & Hp & Hd & Hb).
  destruct (Hkeys p f Hp) as (d & y & Hy & ->).
  rewrite Base_Join in Hb by done. subst y.
  rewrite Dir_Join in Hd by done.
  assert (Path.Join [d; x] = q) as Hpq.
  { rewrite <- Hj. by apply Join_Clean_eq. }
  rewrite Hpq in Hp. rewrite Hp in Hbefore. injection Hbefore as ->.
  split; [by rewrite <- Hpq, Dir_Join|].
  by apply swept_inv, expired_inv in Hs.
Qed.


(** ** Archive names of arbitrary paths *)

Lemma last_dot_nonempty s x : last_dot s = Some x → x ≠ "".
Proof.
  revert x. induction s as [|c s IH]; intros x; cbn; [done|].
  destruct (last_dot s) as [y|]; [intros [= <-]; by apply IH|].
  destruct (Ascii.eqb c "."); [|done]. by intros [= <-].
Qed.

(** The extension is the end of the base name. *)
Lemma Ext_suffix_Base p : ∃ pre, Path.Base p = pre +:+ Path.Ext p.
Proof.
  unfold Path.Ext, Path.Base.
  destruct (split_slash_cons p) as (h & t & Hs).
  destruct (last (split_slash p)) as [e|] eqn:Hl;
    [|apply last_None in Hl; by rewrite Hs in Hl].
  apply last_Some in Hl as [l' Hl].
  destruct (last_dot e) as [x|] eqn:Hd; cbn [default];
    [|eexists; by rewrite append_nil_r].
  pose proof (last_dot_nonempty _ _ Hd) as Hx.
  destruct (last_dot_suffix _ _ Hd) as [pre ->].
  assert (p ≠ "") as Hp.
  { intros ->. cbn in Hl. destruct l' as [|a l']; [|by destruct l'].
    injection Hl as Hl. destruct pre.
    - rewrite append_nil_l in Hl. by subst x.
    - by rewrite append_cons in Hl. }
  apply String.eqb_neq in Hp. rewrite Hp, Hl.
  rewrite filter_app, filter_cons_True, filter_nil, last_snoc.
  - by exists pre.
  - unfold Path.nonempty. apply negb_true_iff, String.eqb_neq.
    intros H. apply (f_equal String.length) in H.
    rewrite length_append in H. destruct x; [done|]. cbn in H. lia.
Qed.

(** X21. For every path, the slice of the base name that [archiveName]
    takes is in range, and the name of the archive is the base name with
    a dash and the time stamp put before its extension, in the directory
    of the path: without the dash and the stamp it is the base name. *)
Theorem archive_name_of_any_path (current : string) (σ : World) :
  ∃ stem,
    Path.Base current = stem +:+ Path.Ext current ∧
    (String.length (Path.Ext current) <= String.length (Path.Base current))%nat ∧
    archiveName current σ =
      Ok (Path.Join [Path.Dir current;
                     stem +:+ "-" +:+ Time.Format (nowWall σ)
                     +:+ Path.Ext current]) σ.
Proof.
  destruct (Ext_suffix_Base current) as [pre Hb]. exists pre.
  split; [done|]. split.
  - rewrite Hb, length_append. lia.
  - rewrite archiveName_eq. unfold archiveNameAt.
    by rewrite Hb, drop_right_append.
Qed.

(** ** Closing *)

(** The pending compressions touch the three names of each of them
    only. *)
Lemma run_frame (l : list string) : ∀ w σ,
  ∃ w' σ',
    run l w σ = Ok w' σ' ∧ same_env σ σ' ∧
    ∀ q, (∀ fn, fn ∈ l → q ≠ fn ∧ q ≠ fn +:+ ".gz"
                          ∧ q ≠ fn +:+ ".gz.processing") →
         files σ' !! q = files σ !! q.
Proof.
  induction l as [|fn l IH]; intros w σ; cbn.
  - exists w, σ. split; [done|]. split; [apply same_env_refl|done].
  - destruct (compress_frame w fn σ) as (σ1 & H1 & Hs1 & Hq1 & _).
    unfold_m. rewrite H1.
    destruct (IH (Done fn w) σ1) as (w2 & σ2 & H2 & Hs2 & Hq2).
    exists w2, σ2. split; [done|]. split; [by eapply same_env_trans|].
    intros q Hq. rewrite Hq2, Hq1; [done|..].
    + apply Hq. by left.
    + apply Hq. by left.
    + apply Hq. by left.
    + intros fn' Hin. apply Hq. by right.
Qed.

(** X22. [Close] returns on every writer, with the writer marked closed
    and no compression pending.  Its error is the one of closing the
    file: [os.ErrInvalid] for a nil file, [os.ErrClosed] for a file that
    is closed already, and what the system call gives otherwise.  The
    only files that can differ afterwards are the inputs of the pending
    compressions, their [".gz"] files and their [".gz.processing"]
    files: the active file is not written, and with nothing pending no
    file changes. *)
Theorem close_touches_pending_only (w : FileWriter) (σ : World) :
  ∃ w' σ',
    Close w σ =
      Ok (w', match logFile w with
              | None => Some ErrInvalid
              | Some h => if fclosed h then Some ErrClosed
                          else faults σ (SysClose (fname h))
              end) σ' ∧
    closed w' = Some true ∧ compressorWG w' = [] ∧
    config w' = config w ∧ byteCounter w' = byteCounter w ∧
    (∀ q, (∀ fn, fn ∈ compressorWG w →
                 q ≠ fn ∧ q ≠ fn +:+ ".gz" ∧ q ≠ fn +:+ ".gz.processing") →
          files σ' !! q = files σ !! q) ∧
    (compressorWG w = [] → files σ' = files σ).
Proof.
  unfold Close, Wait.
  destruct (run_frame (compressorWG (set_closed (Some true) w))
              (set_closed (Some true) w) σ) as (w1 & σ1 & H1 & Hs & Hq).
  destruct (Wait_returns (set_closed (Some true) w) σ) as (σ1' & H1').
  unfold Wait in H1'. rewrite H1 in H1'. injection H1' as -> <-.
  unfold_m. rewrite H1. cbn in *.
  destruct Hs as (_ & _ & Hf & _).
  assert (compressorWG w = [] → files σ1 = files σ) as Hnil.
  { intros Hw. apply map_eq. intros q. apply Hq. intros fn.
    rewrite Hw. by intros ?%elem_of_nil. }
  unfold File_Close.
  destruct (logFile w) as [[n c]|]; cbn; unfold_m; [destruct c; cbn|].
  - by eexists _, σ1.
  - rewrite Hf. by eexists _, σ1.
  - by eexists _, σ1.
Qed.

(** ** Construction that fails *)

(** X23. When the directory of the configuration cannot be created, or
    cannot be read, [NewFileWriter] ends the process with the fatal log
    call and has changed no file: nothing was swept, archived or
    opened. *)
Theorem new_writer_fatal_without_directory (c : FileWriterConfig) (σ : World)
    (e : error)
    (Hfail : faults σ (SysMkdirAll (LogDirName (withDefaults c))) = Some e
             ∨ faults σ (SysReadDir (LogDirName (withDefaults c))) = Some e) :
  NewFileWriter c σ = Fatal "error initializing filewriter" σ.
Proof.
  unfold NewFileWriter, initialize, MkdirAll, cleanup, ReadDir. unfold_m. cbn.
  destruct (faults σ (SysMkdirAll _)) as [e1|] eqn:Hm; [done|].
  destruct Hfail as [?|Hr]; [done|]. by rewrite Hr.
Qed.

(** The system calls that [initialize] needs. *)
Lemma initialize_ok_faults w σ w' σ' :
  initialize w σ = Ok (w', None) σ' →
  faults σ (SysMkdirAll (LogDirName (config w))) = None ∧
  faults σ (SysReadDir (LogDirName (config w))) = None ∧
  faults σ (SysOpenFile (logFileNameFullPath w)) = None ∧
  same_env σ σ'.
Proof.
  unfold initialize, MkdirAll. unfold_m.
  destruct (faults σ (SysMkdirAll _)) eqn:Hm; [done|].
  destruct (cleanup_spec w σ) as (σ2 & -> & Hs2).
  destruct (faults σ (SysReadDir _)) eqn:Hr; [done|]. cbn.
  set (w2 := set_compressorWG _ w).
  destruct (Stat_returns (logFileNameFullPath w) σ2) as ([info e] & ->).
  match goal with
  | |- context [match ?m σ2 with Ok _ _ => _ | Panic _ _ => _ | Fatal _ _ => _ end] =>
      assert (∃ w3 e3 σ3, m σ2 = Ok (w3, e3) σ3 ∧ same_env σ2 σ3
                          ∧ logFileNameFullPath w3 = logFileNameFullPath w)
        as (w3 & e3 & σ3 & -> & Hs3 & Hp3)
  end.
  { destruct info as [info|], e as [e|];
      try (eexists _, _, _; split; [reflexivity|split; [apply same_env_refl|done]]).
    destruct (_ >=? _);
      [|eexists _, _, _; split; [reflexivity|split; [apply same_env_refl|done]]].
    rewrite archive_eq. cbn.
    repeat (case_inner; cbn);
      (eexists _, _, _; split; [reflexivity|split; [auto with fw|done]]). }
  destruct e3; [done|]. rewrite Hp3.
  pose proof (same_env_trans _ _ _ Hs2 Hs3) as Hs.
  destruct (OpenFile_returns (logFileNameFullPath w) false σ3)
    as (f & e4 & σ4 & Ho & Hs4).
  rewrite Ho. destruct e4; [done|]. intros [= _ <-].
  split; [done|]. split; [done|]. split; [|by eapply same_env_trans].
  destruct Hs as (_ & _ & Hf & _). rewrite <- Hf.
  revert Ho. unfold OpenFile. unfold_m.
  by destruct (faults σ3 (SysOpenFile _)).
Qed.

(** X24. [NewFileWriter] returns a writer only when creating the
    directory, reading it and opening the active file all went without
    error; and the failures that the world prescribes and its clock are
    as before. *)
Theorem new_writer_needs_directory_and_file (c : FileWriterConfig)
    (σ σ' : World) (w : FileWriter)
    (Hnew : NewFileWriter c σ = Ok w σ') :
  faults σ (SysMkdirAll (LogDirName (config w))) = None ∧
  faults σ (SysReadDir (LogDirName (config w))) = None ∧
  faults σ (SysOpenFile (logFileNameFullPath w)) = None ∧
  same_env σ σ'.
Proof.
  revert Hnew. unfold NewFileWriter. unfold_m.
  destruct (initialize _ σ) as [[w1 e] σ1| |] eqn:Hi; [|done|done].
  destruct e; [done|]. intros [= <- <-].
  pose proof (initialize_ok_inv _ _ _ _ Hi) as (_ & Hcfg & Hp & _).
  rewrite Hcfg, Hp. by apply initialize_ok_faults in Hi.
Qed.

(** ** The properties at work on concrete inputs *)

Lemma temporary_level_expires_witness :
  let s := mkLevels 0 [] in
  -1 ≠ defaultLogLevel ∧ 0 <= 0 ∧
  ∃ s' r,
    SetLevelTemporarily (-1) 0 s = (s', (r, None)) ∧
    GetLevel s' = -1 ∧
    0 < r <= 60 * Minute ∧
    (0 = 0 → r = 5 * Minute) ∧
    (0 < 0 <= 60 * Minute → r = 0) ∧
    ∀ t, r <= t → GetLevel (elapse t s') = defaultLogLevel.
Proof.
  cbv zeta.
  assert (-1 ≠ defaultLogLevel) as Hl by (unfold defaultLogLevel; lia).
  assert (0 <= 0) as Hd by lia.
  split; [exact Hl|]. split; [exact Hd|].
  exact (temporary_level_expires (-1) 0 (mkLevels 0 []) Hl Hd).
Defined.

Lemma first_temporary_change_ends_second_witness :
  let s := mkLevels 0 [] in
  -1 ≠ defaultLogLevel ∧
  ∃ s1 r1 s2 r2,
    SetLevelTemporarily (-1) 0 s = (s1, (r1, None)) ∧
    SetLevelTemporarily 1 (30 * Minute) s1 = (s2, (r2, None)) ∧
    GetLevel s2 = 1 ∧
    ∀ t, r1 <= t → GetLevel (elapse t s2) = defaultLogLevel.
Proof.
  cbv zeta.
  assert (-1 ≠ defaultLogLevel) as Hl by (unfold defaultLogLevel; lia).
  split; [exact Hl|].
  exact (first_temporary_change_ends_second (-1) 0 1 (30 * Minute)
           (mkLevels 0 []) Hl).
Defined.

Lemma temporary_change_undoes_SetLevel_witness :
  let s := mkLevels 0 [] in
  -1 ≠ defaultLogLevel ∧
  ∃ s1 r1,
    SetLevelTemporarily (-1) 0 s = (s1, (r1, None)) ∧
    GetLevel (SetLevel 2 s1) = 2 ∧
    ∀ t, r1 <= t → GetLevel (elapse t (SetLevel 2 s1)) = defaultLogLevel.
Proof.
  cbv zeta.
  assert (-1 ≠ defaultLogLevel) as Hl by (unfold defaultLogLevel; lia).
  split; [exact Hl|].
  exact (temporary_change_undoes_SetLevel (-1) 0 2 (mkLevels 0 []) Hl).
Defined.

Lemma env_writer_threshold_witness :
  let w := Scenario.env_writer 0 5242880 in
  getLogFileWriter Scenario.size_env Scenario.empty_world
    = Ok w Scenario.env_world ∧
  Strconv.ParseInt (Scenario.size_env LogFileSizeEnvVar) 64 = Some 5 ∧
  MaxLogFileSizeBytes (config w) = 5 * 1048576.
Proof.
  cbv zeta.
  assert (getLogFileWriter Scenario.size_env Scenario.empty_world
          = Ok (Scenario.env_writer 0 5242880) Scenario.env_world) as Hw
    by (vm_compute; reflexivity).
  assert (Strconv.ParseInt (Scenario.size_env LogFileSizeEnvVar) 64 = Some 5)
    as Hp by (vm_compute; reflexivity).
  split; [exact Hw|]. split; [exact Hp|].
  apply (proj1 (env_writer_threshold _ _ _ _ Hw) 5 Hp). lia.
Defined.

Lemma env_writer_retention_witness :
  let w := Scenario.env_writer 604800000000000 1000000 in
  getLogFileWriter Scenario.age_env Scenario.empty_world
    = Ok w Scenario.env_world ∧
  Strconv.ParseInt (Scenario.age_env LogFileMaxAgeEnvVar) 32 = Some 7 ∧
  MaxTimeTimeToKeep (config w) = 7 * 24 * Hour.
Proof.
  cbv zeta.
  assert (getLogFileWriter Scenario.age_env Scenario.empty_world
          = Ok (Scenario.env_writer 604800000000000 1000000) Scenario.env_world)
    as Hw by (vm_compute; reflexivity).
  assert (Strconv.ParseInt (Scenario.age_env LogFileMaxAgeEnvVar) 32 = Some 7)
    as Hp by (vm_compute; reflexivity).
  split; [exact Hw|]. split; [exact Hp|].
  apply (proj1 (env_writer_retention _ _ _ _ Hw) 7 Hp). lia.
Defined.

Lemma writes_append_witness :
  let w := Sample.writer true in
  let σ := Sample.world Sample.active Sample.no_fault in
  let f := mkFile "" 0 in
  let msgs := ["hello"; "world"] in
  closed w = None ∧
  logFile w = Some (mkOsFile (logFileNameFullPath w) false) ∧
  files σ !! logFileNameFullPath w = Some f ∧
  byteCounter w = len (data f) ∧
  faults σ (SysWrite (logFileNameFullPath w)) = None ∧
  byteCounter w + total msgs <= MaxLogFileSizeBytes (config w) ∧
  MaxLogFileSizeBytes (config w) <= MaxInt64 ∧
  ∃ w' σ',
    writes w msgs σ = Ok (w', map (fun msg => (len msg, None)) msgs) σ' ∧
    data <$> files σ' !! logFileNameFullPath w
      = Some (data f +:+ String.concat "" msgs) ∧
    byteCounter w' = len (data f) + total msgs ∧
    (∀ q, q ≠ logFileNameFullPath w → files σ' !! q = files σ !! q) ∧
    rotations σ' = rotations σ.
Proof.
  cbv zeta.
  repeat (split; [vm_compute; (reflexivity || discriminate)|]).
  apply (writes_append ["hello"; "world"] (Sample.writer true)
           (Sample.world Sample.active Sample.no_fault) (mkFile "" 0));
    vm_compute; (reflexivity || discriminate).
Defined.

Lemma write_rotates_witness :
  let w := Sample.writer true in
  let σ := Sample.world Sample.active Sample.no_fault in
  let f := mkFile "" 0 in
  let msg := "hello world!" in
  closed w = None ∧ well_named w ∧
  logFile w = Some (mkOsFile (logFileNameFullPath w) false) ∧
  files σ !! logFileNameFullPath w = Some f ∧
  byteCounter w = len (data f) ∧
  fault_free σ ∧
  byteCounter w + len msg > MaxLogFileSizeBytes (config w) ∧
  byteCounter w + len msg <= MaxInt64 ∧
  ∃ w' σ',
    Write w msg σ = Ok (w', (len msg, None)) σ' ∧
    files σ' !! archive_of w (nowWall σ)
      = Some (mkFile (data f +:+ msg) (nowNano σ)) ∧
    files σ' !! logFileNameFullPath w = Some (mkFile "" (nowNano σ)) ∧
    (∀ q, q ≠ logFileNameFullPath w → q ≠ archive_of w (nowWall σ) →
          files σ' !! q = files σ !! q) ∧
    logFile w' = Some (mkOsFile (logFileNameFullPath w) false) ∧
    byteCounter w' = 0 ∧
    compressorWG w' = (if Compress (config w)
                       then compressorWG w ++ [archive_of w (nowWall σ)]
                       else compressorWG w)%list ∧
    rotations σ' = S (rotations σ).
Proof.
  cbv zeta.
  assert (well_named (Sample.writer true)) as Hn by (split; reflexivity).
  assert (fault_free (Sample.world Sample.active Sample.no_fault)) as Hf
    by (intros s; reflexivity).
  split; [reflexivity|]. split; [exact Hn|].
  split; [reflexivity|]. split; [reflexivity|]. split; [reflexivity|].
  split; [exact Hf|].
  split; [vm_compute; reflexivity|]. split; [vm_compute; discriminate|].
  apply (write_rotates (Sample.writer true) "hello world!"
           (Sample.world Sample.active Sample.no_fault) (mkFile "" 0));
    first [exact Hn | exact Hf | vm_compute; (reflexivity || discriminate)].
Defined.

Lemma writes_keep_step_witness :
  let w := Sample.writer true in
  let σ := Sample.world Sample.active Sample.no_fault in
  let msgs := ["hello"; "world!"; "again"] in
  closed w = None ∧ well_named w ∧ tracks w σ ∧ fault_free σ ∧
  0 <= MaxLogFileSizeBytes (config w) ∧
  byteCounter w <= MaxLogFileSizeBytes (config w) ∧
  Forall (fun msg => MaxLogFileSizeBytes (config w) + len msg <= MaxInt64) msgs ∧
  ∃ w' σ',
    writes w msgs σ = Ok (w', map (fun msg => (len msg, None)) msgs) σ' ∧
    closed w' = None ∧
    tracks w' σ' ∧
    byteCounter w' <= MaxLogFileSizeBytes (config w).
Proof.
  cbv zeta.
  assert (well_named (Sample.writer true)) as Hn by (split; reflexivity).
  assert (tracks (Sample.writer true)
            (Sample.world Sample.active Sample.no_fault)) as Ht
    by (split; [reflexivity|exists (mkFile "" 0); split; reflexivity]).
  assert (fault_free (Sample.world Sample.active Sample.no_fault)) as Hf
    by (intros s; reflexivity).
  assert (Forall (fun msg => MaxLogFileSizeBytes (config (Sample.writer true))
                             + len msg <= MaxInt64)
            ["hello"; "world!"; "again"]) as Hr
    by (repeat constructor; vm_compute; discriminate).
  split; [reflexivity|]. split; [exact Hn|]. split; [exact Ht|].
  split; [exact Hf|].
  split; [vm_compute; discriminate|]. split; [vm_compute; discriminate|].
  split; [exact Hr|].
  apply (writes_keep_step ["hello"; "world!"; "again"] (Sample.writer true)
           (Sample.world Sample.active Sample.no_fault));
    first [exact Hn | exact Ht | exact Hf | exact Hr
          | vm_compute; (reflexivity || discriminate)].
Defined.

Lemma new_writer_is_open_witness :
  let w := Sample.writer true in
  let σ' := Sample.world {[ "logs/app.log" := mkFile "" 1000 ]} Sample.no_fault in
  NewFileWriter (Sample.cfg true) Scenario.empty_world = Ok w σ' ∧
  closed w = None ∧
  logFile w = Some (mkOsFile (logFileNameFullPath w) false) ∧
  is_Some (files σ' !! logFileNameFullPath w) ∧
  logFileNameFullPath w =
    Path.Join [LogDirName (config w); LogFileName (config w)].
Proof.
  cbv zeta.
  assert (NewFileWriter (Sample.cfg true) Scenario.empty_world
          = Ok (Sample.writer true)
               (Sample.world {[ "logs/app.log" := mkFile "" 1000 ]}
                  Sample.no_fault)) as Hnew
    by (vm_compute; reflexivity).
  split; [exact Hnew|].
  exact (new_writer_is_open _ _ _ _ Hnew).
Defined.

Lemma new_writer_in_step_witness :
  let c := Sample.cfg true in
  let σ := Scenario.empty_world in
  fault_free σ ∧ plain (LogFileName (withDefaults c)) = true ∧
  ∃ w σ',
    NewFileWriter c σ = Ok w σ' ∧
    closed w = None ∧ well_named w ∧ tracks w σ' ∧ fault_free σ' ∧
    config w = withDefaults c ∧
    (byteCounter w = 0 ∨ byteCounter w < MaxLogFileSizeBytes (config w)).
Proof.
  cbv zeta.
  assert (fault_free Scenario.empty_world) as Hf by (intros s; reflexivity).
  assert (plain (LogFileName (withDefaults (Sample.cfg true))) = true) as Hn
    by reflexivity.
  split; [exact Hf|]. split; [exact Hn|].
  exact (new_writer_in_step (Sample.cfg true) Scenario.empty_world Hf Hn).
Defined.

Lemma write_panics_after_failed_reopen_witness :
  let w := Sample.writer true in
  let σ := Sample.world Sample.active Scenario.reopen_fails in
  let h := mkOsFile "logs/app.log" false in
  let msg := "hello world!" in
  closed w = None ∧ logFile w = Some h ∧ fclosed h = false ∧
  faults σ (SysWrite (fname h)) = None ∧
  faults σ (SysClose (fname h)) = None ∧
  faults σ (SysMkdirAll (LogDirName (config w))) = None ∧
  faults σ (SysOpenFile (logFileNameFullPath w)) = Some ErrPermission ∧
  MinInt64 <= byteCounter w ∧
  byteCounter w + len msg > MaxLogFileSizeBytes (config w) ∧
  byteCounter w + len msg <= MaxInt64 ∧
  ∃ w1 σ1,
    Write w msg σ = Ok (w1, (len msg, None)) σ1 ∧
    logFile w1 = None ∧
    ∀ msg2 σ2,
      Write w1 msg2 σ2 =
        Panic "logging inconsistency: logFile was nil" (count_rotation σ2).
Proof.
  cbv zeta.
  repeat (split; [vm_compute; (reflexivity || discriminate)|]).
  apply (write_panics_after_failed_reopen (Sample.writer true) "hello world!"
           (Sample.world Sample.active Scenario.reopen_fails)
           (mkOsFile "logs/app.log" false) ErrPermission);
    vm_compute; (reflexivity || discriminate).
Defined.

Lemma write_fails_after_failed_mkdir_witness :
  let w := Sample.writer true in
  let σ := Sample.world Sample.active Sample.mkdir_fails in
  let h := mkOsFile "logs/app.log" false in
  let msg := "hello world!" in
  closed w = None ∧ logFile w = Some h ∧ fclosed h = false ∧
  faults σ (SysWrite (fname h)) = None ∧
  faults σ (SysClose (fname h)) = None ∧
  faults σ (SysMkdirAll (LogDirName (config w))) = Some ErrPermission ∧
  MinInt64 <= byteCounter w ∧
  byteCounter w + len msg > MaxLogFileSizeBytes (config w) ∧
  byteCounter w + len msg <= MaxInt64 ∧
  ∃ w1 σ1,
    Write w msg σ = Ok (w1, (len msg, None)) σ1 ∧
    logFile w1 = Some (mkOsFile (fname h) true) ∧
    ∀ msg2 σ2,
      Write w1 msg2 σ2 = Ok (w1, (0, Some ErrClosed)) (count_rotation σ2) ∧
      files (count_rotation σ2) = files σ2.
Proof.
  cbv zeta.
  repeat (split; [vm_compute; (reflexivity || discriminate)|]).
  apply (write_fails_after_failed_mkdir (Sample.writer true) "hello world!"
           (Sample.world Sample.active Sample.mkdir_fails)
           (mkOsFile "logs/app.log" false) ErrPermission);
    vm_compute; (reflexivity || discriminate).
Defined.

Lemma compress_replaces_witness :
  let w := Scenario.keep_writer in
  let σ := Scenario.old_world in
  let fn := "logs/old.log" in
  files σ !! fn = Some Scenario.old_file ∧ fault_free σ ∧
  ∃ σ',
    compress w fn σ = Ok (Done fn w) σ' ∧
    files σ' =
      <[fn +:+ ".gz" := mkFile (gzip σ (data Scenario.old_file)) (nowNano σ)]>
        (delete (fn +:+ ".gz.processing") (delete fn (files σ))).
Proof.
  cbv zeta.
  assert (files Scenario.old_world !! "logs/old.log" = Some Scenario.old_file)
    as Hfile by reflexivity.
  assert (fault_free Scenario.old_world) as Hf by (intros s; reflexivity).
  split; [exact Hfile|]. split; [exact Hf|].
  exact (compress_replaces Scenario.keep_writer "logs/old.log"
           Scenario.old_world Scenario.old_file Hfile Hf).
Defined.

Lemma sweep_without_retention_witness :
  let w := Sample.writer true in
  let σ := Scenario.old_world in
  MaxTimeTimeToKeep (config w) <= 0 ∧
  ∃ w' e σ', cleanup w σ = Ok (w', e) σ' ∧ files σ' = files σ.
Proof.
  cbv zeta.
  assert (MaxTimeTimeToKeep (config (Sample.writer true)) <= 0) as Hk
    by (vm_compute; discriminate).
  split; [exact Hk|].
  exact (sweep_without_retention (Sample.writer true) Scenario.old_world Hk).
Defined.

Lemma sweep_deletes_old_file_witness :
  let w := Scenario.keep_writer in
  let σ := Scenario.old_world in
  let x := "old.log" in
  let f := Scenario.old_file in
  plain x = true ∧
  files σ !! Path.Join [LogDirName (config w); x] = Some f ∧
  0 < MaxTimeTimeToKeep (config w) < MaxInt64 ∧
  nowNano σ - modTime f > MaxTimeTimeToKeep (config w) ∧
  faults σ (SysReadDir (LogDirName (config w))) = None ∧
  faults σ (SysLstat (Path.Join [LogDirName (config w); x])) = None ∧
  faults σ (SysRemove (Path.Join [LogDirName (config w); x])) = None ∧
  ∃ w' σ',
    cleanup w σ = Ok (w', None) σ' ∧
    files σ' !! Path.Join [LogDirName (config w); x] = None.
Proof.
  cbv zeta.
  assert (0 < MaxTimeTimeToKeep (config Scenario.keep_writer) < MaxInt64) as Hk
    by (split; vm_compute; reflexivity).
  split; [reflexivity|]. split; [reflexivity|]. split; [exact Hk|].
  split; [vm_compute; reflexivity|].
  split; [reflexivity|]. split; [reflexivity|]. split; [reflexivity|].
  apply (sweep_deletes_old_file Scenario.keep_writer Scenario.old_world
           "old.log" Scenario.old_file);
    first [exact Hk | vm_compute; reflexivity].
Defined.

Lemma sweep_deletes_only_old_files_witness :
  let w := Scenario.keep_writer in
  let σ := Scenario.old_world in
  let q := "logs/old.log" in
  clean_keys (files σ) ∧
  cleanup w σ = Ok (w, None) Scenario.empty_world ∧
  files σ !! q = Some Scenario.old_file ∧
  files Scenario.empty_world !! q = None ∧
  Path.Dir q = Path.Clean (LogDirName (config w)) ∧
  MaxTimeTimeToKeep (config w) > 0 ∧
  nowNano σ - modTime Scenario.old_file > MaxTimeTimeToKeep (config w).
Proof.
  cbv zeta.
  assert (clean_keys (files Scenario.old_world)) as Hkeys.
  { intros p f Hp. unfold Scenario.old_world, Sample.world in Hp.
    cbn [files] in Hp. apply lookup_singleton_Some in Hp as [<- _].
    exists "logs", "old.log". split; reflexivity. }
  assert (cleanup Scenario.keep_writer Scenario.old_world
          = Ok (Scenario.keep_writer, None) Scenario.empty_world) as Hsweep
    by (vm_compute; reflexivity).
  assert (files Scenario.old_world !! "logs/old.log" = Some Scenario.old_file)
    as Hb by reflexivity.
  assert (files Scenario.empty_world !! "logs/old.log" = None) as Ha
    by reflexivity.
  split; [exact Hkeys|]. split; [exact Hsweep|].
  split; [exact Hb|]. split; [exact Ha|].
  exact (sweep_deletes_only_old_files _ _ _ _ _ _ _ Hkeys Hsweep Hb Ha).
Defined.


Lemma new_writer_fatal_without_directory_witness :
  let σ := Sample.world Sample.active Sample.mkdir_fails in
  faults σ (SysMkdirAll (LogDirName (withDefaults (Sample.cfg true))))
    = Some ErrPermission ∧
  NewFileWriter (Sample.cfg true) σ = Fatal "error initializing filewriter" σ.
Proof.
  cbv zeta.
  assert (faults (Sample.world Sample.active Sample.mkdir_fails)
            (SysMkdirAll (LogDirName (withDefaults (Sample.cfg true))))
          = Some ErrPermission) as Hm by reflexivity.
  split; [exact Hm|].
  exact (new_writer_fatal_without_directory (Sample.cfg true)
           (Sample.world Sample.active Sample.mkdir_fails) ErrPermission
           (or_introl Hm)).
Defined.

Lemma new_writer_needs_directory_and_file_witness :
  let w := Sample.writer true in
  let σ := Scenario.empty_world in
  let σ' := Sample.world {[ "logs/app.log" := mkFile "" 1000 ]} Sample.no_fault in
  NewFileWriter (Sample.cfg true) σ = Ok w σ' ∧
  faults σ (SysMkdirAll (LogDirName (config w))) = None ∧
  faults σ (SysReadDir (LogDirName (config w))) = None ∧
  faults σ (SysOpenFile (logFileNameFullPath w)) = None ∧
  same_env σ σ'.
Proof.
  cbv zeta.
  assert (NewFileWriter (Sample.cfg true) Scenario.empty_world
          = Ok (Sample.writer true)
               (Sample.world {[ "logs/app.log" := mkFile "" 1000 ]}
                  Sample.no_fault)) as Hnew
    by (vm_compute; reflexivity).
  split; [exact Hnew|].
  exact (new_writer_needs_directory_and_file _ _ _ _ Hnew).
Defined.

End More.
